(** * kodi_cli_remote: the command registry and the request dispatcher

    A shallow embedding of package [kodicommunicator]
    (src/src/administration/administration.go, second half): the
    [CommandMap] registry with its parameter builders, [parseTimeNumber],
    [getRepeatCount], [createJsonCommand], [createJsonError], [sendRequest]
    and [ExecuteCommand], together with the fragments of the Go standard
    library they call ([strings.Split], [strconv.Atoi], [strconv.Quote],
    [json.Marshal], [json.Unmarshal]).

    Go values are modelled as follows.
    - [int] is a 64-bit integer, carried as [Z] with the range checks of
      [strconv] written out.
    - [string] is [string] (a sequence of bytes).
    - [map[string]T] is [gmap string T]; a nil map and an empty map are
      both [∅] (the code only reads their length).
    - A function returning [(T, error)] returns [result T]; a run-time
      panic is the third outcome of [result].
    - The network is an explicit [world] threaded through [sendRequest].

    After the dispatcher come package [administration] (the configuration
    file, over a [FileSystem] interface), package [main] (argument handling,
    help and the entry point, with what is printed as a list of events) and
    the earlier revision of [kodicommunicator] kept in
    src/src/kodicommunicator/kodicommunicator.go (module [legacy]). *)

From Stdlib Require Import ZArith String Ascii List.
From stdpp Require Import gmap strings list fin_maps sorting.

Open Scope string_scope.
Open Scope Z_scope.

Definition dquote : string := String (ascii_of_N 34) EmptyString.
Definition backslash : ascii := ascii_of_N 92.

(** ** Outcomes of Go calls *)

#[local] Unset Elimination Schemes.

(** The JSON documents exchanged with the server, as the token structure
    of their text: object members in the order of the text, duplicates
    allowed.  [JInt n] is an integer literal, [JReal lit] a number literal
    with a fraction or an exponent. *)
Inductive json : Type :=
  | JNull
  | JBool (b : bool)
  | JInt (n : Z)
  | JReal (lit : string)
  | JString (s : string)
  | JArray (items : list json)
  | JObject (members : list (string * json)).
#[local] Set Elimination Schemes.

Inductive NumErrKind : Type := ErrSyntax | ErrRange.

(** Go's [error] interface, by concrete type. *)
Inductive error : Type :=
  | errorString (s : string)                          (* errors.New(s) *)
  | NumError (Func Num : string) (Err : NumErrKind)   (* *strconv.NumError *)
  | UnmarshalTypeError (Value : json) (Type_ : string) (* *json.UnmarshalTypeError *)
  | externalError (text : string).                    (* net/url, net/http, io, json scanner *)

Inductive panic : Type :=
  | IndexOutOfRange (index len : Z)
  | NilDereference.

Inductive result (A : Type) : Type :=
  | Ok (a : A)
  | Err (e : error)
  | Panic (p : panic).
Arguments Ok {A} a.
Arguments Err {A} e.
Arguments Panic {A} p.

#[global] Instance result_ret : MRet result := @Ok.
#[global] Instance result_bind : MBind result := fun A B f r =>
  match r with
  | Ok a => f a
  | Err e => Err e
  | Panic p => Panic p
  end.

Definition len {A} (l : list A) : Z := Z.of_nat (length l).

(** [l[i]] with Go's bounds check. *)
Definition index {A} (l : list A) (i : Z) : result A :=
  if (i <? 0) || (len l <=? i) then Panic (IndexOutOfRange i (len l))
  else match l !! Z.to_nat i with
       | Some x => Ok x
       | None => Panic (IndexOutOfRange i (len l))
       end.

Module errors.
Definition New (text : string) : error := errorString text.
End errors.

(** ** package strings *)
Module strings.

(** [strings.Split(s, sep)] for a separator of one byte, the only form
    the program uses ([`:`]): the pieces between the occurrences of
    [sep]; a string without [sep], the empty one included, is one piece. *)
Fixpoint Split (s : string) (sep : ascii) : list string :=
  match s with
  | EmptyString => [EmptyString]
  | String c rest =>
      if Ascii.eqb c sep then EmptyString :: Split rest sep
      else match Split rest sep with
           | piece :: pieces => String c piece :: pieces
           | [] => [String c EmptyString]
           end
  end.

(** [strings.Join(pieces, sep)] for a separator of one byte. *)
Fixpoint Join (pieces : list string) (sep : ascii) : string :=
  match pieces with
  | [] => EmptyString
  | [p] => p
  | p :: ps => p ++ String sep (Join ps sep)
  end.

(** Whether the byte [c] occurs in [s]. *)
Fixpoint has_byte (s : string) (c : ascii) : bool :=
  match s with
  | EmptyString => false
  | String d rest => Ascii.eqb d c || has_byte rest c
  end.

(** [strings.Contains(s, substr)]. *)
Fixpoint Contains (s substr : string) : bool :=
  String.prefix substr s ||
  match s with
  | EmptyString => false
  | String _ rest => Contains rest substr
  end.

End strings.

(** ** package strconv *)
Module strconv.

Definition minInt : Z := - 2 ^ 63.
Definition maxInt : Z := 2 ^ 63 - 1.

Definition digit (c : ascii) : option Z :=
  let n := Z.of_N (N_of_ascii c) in
  if (48 <=? n) && (n <=? 57) then Some (n - 48) else None.

Fixpoint digits (s : string) (acc : Z) : option Z :=
  match s with
  | EmptyString => Some acc
  | String c rest =>
      match digit c with
      | Some d => digits rest (acc * 10 + d)
      | None => None
      end
  end.

(** [strconv.Atoi]: an optional sign, then one or more decimal digits;
    [ErrSyntax] otherwise, [ErrRange] when the value does not fit [int].
    The error keeps the whole input as [Num]. *)
Definition Atoi (s : string) : result Z :=
  let neg := match s with String "-" _ => true | _ => false end in
  let body := match s with
              | String "+" rest => rest
              | String "-" rest => rest
              | _ => s
              end in
  match body with
  | EmptyString => Err (NumError "Atoi" s ErrSyntax)
  | _ =>
      match digits body 0 with
      | None => Err (NumError "Atoi" s ErrSyntax)
      | Some n =>
          let v := if neg then - n else n in
          if (v <? minInt) || (maxInt <? v) then Err (NumError "Atoi" s ErrRange)
          else Ok v
      end
  end.

Definition hexdigit (n : N) : ascii :=
  if (n <? 10)%N then ascii_of_N (48 + n) else ascii_of_N (87 + n).

(** One byte of [strconv.Quote] in the ASCII range; [None] above it,
    where the result depends on UTF-8 decoding and Unicode tables. *)
Definition quoteByte (c : ascii) : option string :=
  let n := N_of_ascii c in
  let esc (x : string) := Some (String backslash x) in
  if (128 <=? n)%N then None
  else if (n =? 34)%N || (n =? 92)%N then esc (String c "")
  else if (32 <=? n)%N && (n <=? 126)%N then Some (String c "")
  else if (n =? 7)%N then esc "a"
  else if (n =? 8)%N then esc "b"
  else if (n =? 12)%N then esc "f"
  else if (n =? 10)%N then esc "n"
  else if (n =? 13)%N then esc "r"
  else if (n =? 9)%N then esc "t"
  else if (n =? 11)%N then esc "v"
  else esc (String "x" (String (hexdigit (n / 16)) (String (hexdigit (n mod 16)) ""))).

Fixpoint quoteBody (s : string) : option string :=
  match s with
  | EmptyString => Some EmptyString
  | String c rest =>
      q ← quoteByte c; qs ← quoteBody rest; Some (q ++ qs)
  end.

Definition Quote (s : string) : option string :=
  q ← quoteBody s; Some (dquote ++ q ++ dquote).

(** The [Error] method of [NumError]. *)
Definition NumError_Error (Func Num : string) (Err : NumErrKind) : option string :=
  q ← Quote Num;
  Some ("strconv." ++ Func ++ ": parsing " ++ q ++ ": " ++
        match Err with
        | ErrSyntax => "invalid syntax"
        | ErrRange => "value out of range"
        end).

End strconv.

(** [e.Error()], for the error types whose text is modelled. *)
Definition ErrorText (e : error) : option string :=
  match e with
  | errorString s => Some s
  | NumError f n k => strconv.NumError_Error f n k
  | UnmarshalTypeError _ _ => None
  | externalError text => Some text
  end.

(** ** package encoding/json, encoding side *)

(** A Go value stored in a [map[string]interface{}] by the parameter
    builders: an [int], a [string], or the [map[string]int] of seek. *)
Inductive value : Type :=
  | VInt (n : Z)
  | VString (s : string)
  | VMapInt (m : gmap string Z).

Module json_enc.

Definition key_le {A} (x y : string * A) : Prop := String.leb x.1 y.1 = true.

#[global] Instance key_le_dec {A} (x y : string * A) : Decision (key_le x y).
Proof. unfold key_le. apply _. Defined.

(** [json.Marshal] writes the entries of a map sorted by key. *)
Definition sorted_entries {A} (m : gmap string A) : list (string * A) :=
  merge_sort key_le (map_to_list m).

Definition MarshalValue (v : value) : json :=
  match v with
  | VInt n => JInt n
  | VString s => JString s
  | VMapInt m => JObject (prod_map id JInt <$> sorted_entries m)
  end.

Definition MarshalMap (m : gmap string value) : json :=
  JObject (prod_map id MarshalValue <$> sorted_entries m).

(** The value of the first member named [k] of an object. *)
Fixpoint member (k : string) (members : list (string * json)) : option json :=
  match members with
  | [] => None
  | (k', v) :: rest => if String.eqb k' k then Some v else member k rest
  end.

End json_enc.

(** ** package kodicommunicator: types *)

(** [Command] represents a command which can be sent to Kodi. *)
Record Command : Type := {
  CliName : string;
  KodiName : string;
  Description : string;
  ParametersDescription : gmap string string;
  CreateParameterMap : list string → result (gmap string value)
}.

(** [CommandRequest] represents all parameters of a JSONRPC call. *)
Record CommandRequest : Type := {
  JSONrpc : string;   (* `json:"jsonrpc"` *)
  Method : string;    (* `json:"method"` *)
  Params : gmap string value;  (* `json:"params,omitempty"` *)
  ID : Z              (* `json:"id"` *)
}.

(** [var command CommandRequest]. *)
Definition zeroCommandRequest : CommandRequest :=
  {| JSONrpc := ""; Method := ""; Params := ∅; ID := 0 |}.

(** [SetValues] sets the method and the parameters for the JSONRPC call. *)
Definition SetValues (self : CommandRequest) (method : string)
    (params : gmap string value) : CommandRequest :=
  {| JSONrpc := "2.0"; ID := 1; Method := method; Params := params |}.

(** [json.Marshal(command)]: the fields in declaration order under their
    tags; [omitempty] leaves [params] out when the map has length 0. *)
Definition MarshalCommandRequest (c : CommandRequest) : json :=
  JObject ([("jsonrpc", JString (JSONrpc c)); ("method", JString (Method c))]
           ++ (if Z.of_nat (size (Params c)) =? 0 then []
               else [("params", json_enc.MarshalMap (Params c))])
           ++ [("id", JInt (ID c))]).

(** ** parseTimeNumber *)

(** [parseTimeNumber] parses a number and makes sure that the number is
    >= 0 and <= 59. *)
Definition parseTimeNumber (number : string) : result Z :=
  match strconv.Atoi number with
  | Ok num =>
      if (59 <? num) || (num <? 0) then
        Err (errors.New ("A time-number needs to be between 0 and 59, but was " ++ number))
      else Ok num
  | Err err => Err err
  | Panic p => Panic p
  end.

(** ** The parameter builders of [CommandMap] *)

Definition playerid_builder (params : list string) : result (gmap string value) :=
  Ok {[ "playerid" := VInt 1 ]}.

Definition mute_builder (params : list string) : result (gmap string value) :=
  Ok {[ "mute" := VString "toggle" ]}.

Definition empty_builder (params : list string) : result (gmap string value) :=
  Ok ∅.

Definition speed_builder (params : list string) : result (gmap string value) :=
  p0 ← index params 0;
  Ok (<[ "playerid" := VInt 1 ]> {[ "speed" := VString p0 ]}).

Definition not_enough_parameters : string :=
  "Not enough parameters. See " ++ dquote ++ "help seek" ++ dquote ++ " for usage information.".
Definition illegal_parameter : string :=
  "Illegal parameter. See " ++ dquote ++ "help seek" ++ dquote ++ " for usage information.".

Definition seek_value (v : value) : gmap string value :=
  <[ "playerid" := VInt 1 ]> {[ "value" := v ]}.

Definition timeMap0 : gmap string Z :=
  <[ "hours" := 0 ]> (<[ "minutes" := 0 ]> (<[ "seconds" := 0 ]> {[ "milliseconds" := 0 ]})).

Definition seek_builder (params : list string) : result (gmap string value) :=
  if len params <? 1 then Err (errors.New not_enough_parameters)
  else
    p0 ← index params 0;
    let val := if String.eqb p0 "+" then "smallforward"
               else if String.eqb p0 "++" then "bigforward"
               else if String.eqb p0 "-" then "smallbackward"
               else if String.eqb p0 "--" then "bigbackward"
               else "" in
    if 0 <? Z.of_nat (String.length val) then Ok (seek_value (VString val))
    else
      let timeMap := timeMap0 in
      tok ← index params (len params - 1);
      let hms := strings.Split tok ":" in
      '(timeMap, hms) ←
        (if len hms =? 3 then
           h ← index hms 0;
           hours ← parseTimeNumber h;
           Ok (<[ "hours" := hours ]> timeMap, drop 1 hms)
         else Ok (timeMap, hms));
      if len hms =? 2 then
        m ← index hms 0;
        minutes ← parseTimeNumber m;
        s ← index hms 1;
        seconds ← parseTimeNumber s;
        let timeMap := <[ "minutes" := minutes ]> timeMap in
        let timeMap := <[ "seconds" := seconds ]> timeMap in
        Ok (seek_value (VMapInt timeMap))
      else Err (errors.New illegal_parameter).

Definition seek_description : gmap string string :=
  <[ "-/+" := "Jump back/forth n seconds." ]>
  (<[ "--/++" := "Jump back/forth n seconds." ]>
  {[ "[hh:]mm:ss" := "Junp to hours:minutes:seconds (hours optional)" ]}).

Definition notify_description : gmap string string :=
  <[ "title" := "The title of the notification." ]>
  (<[ "message" := "The message of the notification." ]>
  {[ "displaytime" := "(optional) The time in milliseconds the notification is displayed." ]}).

Definition mkCommand (cli kodi descr : string) (pd : gmap string string)
    (build : list string → result (gmap string value)) : Command :=
  {| CliName := cli; KodiName := kodi; Description := descr;
     ParametersDescription := pd; CreateParameterMap := build |}.

(** The entries of the [CommandMap] literal, in source order. *)
Definition CommandEntries : list (string * Command) :=
  [ ("play", mkCommand "play" "Player.PlayPause"
       "Resumes the current playback from pause state." ∅ playerid_builder);
    ("pause", mkCommand "pause" "Player.PlayPause"
       "Pauses the current playback." ∅ playerid_builder);
    ("stop", mkCommand "stop" "Player.Stop"
       "Stops the current playback." ∅ playerid_builder);
    ("mute", mkCommand "mute" "Application.SetMute"
       "Mutes or unmutes the audio." ∅ mute_builder);
    ("seek", mkCommand "seek" "Player.Seek"
       "Jumps to the given time." seek_description seek_builder);
    ("speed", mkCommand "speed" "Player.Speed"
       "Set the playback speed." {[ "speed" := "Speed as integer" ]} speed_builder);
    ("action", mkCommand "action" "Input.Select"
       "Selects the current selection." ∅ empty_builder);
    ("context", mkCommand "context" "Input.ContextMenu"
       "Opens the context menu." ∅ empty_builder);
    ("info", mkCommand "info" "Input.Info"
       "Opens the info view." ∅ empty_builder);
    ("home", mkCommand "home" "Input.Home"
       "Returns to the home screen." ∅ empty_builder);
    ("back", mkCommand "back" "Input.Back"
       "Returns to the previous view." ∅ empty_builder);
    ("left", mkCommand "left" "Input.Left"
       "Sends the cursor one item to the left" ∅ empty_builder);
    ("right", mkCommand "right" "Input.Right"
       "Sends the cursor one item to the right." ∅ empty_builder);
    ("up", mkCommand "up" "Input.Up"
       "Sends the cursor one item up." ∅ empty_builder);
    ("down", mkCommand "down" "Input.Down"
       "Sends the cursor one item down." ∅ empty_builder);
    ("notify", mkCommand "notify" "GUI.ShowNotification"
       "Displays a notification on the screen." notify_description empty_builder);
    ("clean", mkCommand "clean" "VideoLibrary.Clean"
       "Cleans the video library from non-existent items." ∅ empty_builder);
    ("update", mkCommand "update" "VideoLibrary.Scan"
       "Scans the video sources for new library items." ∅ empty_builder) ].

(** [CommandMap]: a miss of the Go map yields the nil pointer, here [None]. *)
Definition CommandMap : gmap string Command := list_to_map CommandEntries.

(** [GetCommandForName] returns a copy of the Command related to the
    CliName passed if it exists.  The pointer is dereferenced before
    [success] is looked at. *)
Definition GetCommandForName (cmd : string) : result (Command * bool) :=
  match CommandMap !! cmd with
  | Some command => Ok (command, true)
  | None => Panic NilDereference
  end.

(** [getRepeatCount] returns for some allowed actions the number how often
    this action should be executed, and the value [*params] has afterwards. *)
Definition getRepeatCount (action : string) (params : list string)
    : result (Z * list string) :=
  if (0 <? len params) &&
     (String.eqb action "down" || String.eqb action "up" ||
      String.eqb action "left" || String.eqb action "right")
  then
    tok ← index params (len params - 1);
    match strconv.Atoi tok with
    | Ok num =>
        if num <? 1 then Ok (1, params)
        else Ok (num, take (Z.to_nat (len params - 1)) params)
    | Err _ => Ok (1, params)
    | Panic p => Panic p
    end
  else Ok (1, params).

(** [createJsonCommand] takes the action and the params and creates a
    Command: the JSON on success, an error otherwise.  [json.Marshal]
    cannot fail on a [CommandRequest] built from these values. *)
Definition createJsonCommand (action : string) (params : list string) : result json :=
  let command := zeroCommandRequest in
  match CommandMap !! action with
  | Some cmd =>
      paramMap ← CreateParameterMap cmd params;
      let command := SetValues command (KodiName cmd) paramMap in
      Ok (MarshalCommandRequest command)
  | None => Err (errors.New ("The Command " ++ action ++ " is unknown."))
  end.

(** ** package encoding/json, decoding side *)

(** [Stack] contains detailed information about the problem causing
    elements of the request. *)
Record Stack : Type := {
  Stack_Name : string;      (* `json:"name"` *)
  Stack_Type : string;      (* `json:"type"` *)
  Stack_Message : string    (* `json:"message"` *)
}.

(** [Data] contains the parts of the request which caused the error. *)
Record Data : Type := {
  Data_Message : string;    (* `json:"message"` *)
  Data_Method : string;     (* `json:"method"` *)
  Data_Stack : Stack        (* `json:"stack"` *)
}.

(** [Error] is the part of the JSONRPC-Errorresponse which contains the
    error-data. *)
Record Error : Type := {
  Error_Code : Z;           (* `json:"code"` *)
  Error_Data : Data;        (* `json:"data"` *)
  Error_Message : string    (* `json:"message"` *)
}.

(** [ErrorResponse] is the foundation for the JSONRPC Error returned by
    Kodi if something happened. *)
Record ErrorResponse : Type := {
  Resp_Error : Error;       (* `json:"error"` *)
  Resp_ID : Z;              (* `json:"id"` *)
  Resp_JsonRPC : string     (* `json:"jsonrpc"` *)
}.

Definition zeroStack : Stack :=
  {| Stack_Name := ""; Stack_Type := ""; Stack_Message := "" |}.
Definition zeroData : Data :=
  {| Data_Message := ""; Data_Method := ""; Data_Stack := zeroStack |}.
Definition zeroError : Error :=
  {| Error_Code := 0; Error_Data := zeroData; Error_Message := "" |}.
(** [var errorResponse ErrorResponse]. *)
Definition zeroErrorResponse : ErrorResponse :=
  {| Resp_Error := zeroError; Resp_ID := 0; Resp_JsonRPC := "" |}.

Module json_dec.

Definition lower (c : ascii) : ascii :=
  let n := N_of_ascii c in
  if (65 <=? n)%N && (n <=? 90)%N then ascii_of_N (n + 32) else c.

(** Object keys match field names under Unicode simple case folding.
    For the lower-case ASCII names of these structs that is: ASCII
    letters in either case, U+017F (bytes C5 BF) for [s] and U+212A
    (bytes E2 84 AA) for [k]. *)
Fixpoint foldKey (s : string) : string :=
  match s with
  | EmptyString => EmptyString
  | String "197" (String "191" rest) => String "s" (foldKey rest)
  | String "226" (String "132" (String "170" rest)) => String "k" (foldKey rest)
  | String c rest => String (lower c) (foldKey rest)
  end.

(** The decoder keeps the first type error and goes on. *)
Definition saveError (saved : option error) (e : error) : option error :=
  match saved with
  | Some _ => saved
  | None => Some e
  end.

Definition storeInt (v : json) (cur : Z) (saved : option error) : Z * option error :=
  match v with
  | JNull => (cur, saved)
  | JInt n =>
      if (n <? strconv.minInt) || (strconv.maxInt <? n)
      then (cur, saveError saved (UnmarshalTypeError v "int"))
      else (n, saved)
  | _ => (cur, saveError saved (UnmarshalTypeError v "int"))
  end.

Definition storeString (v : json) (cur : string) (saved : option error)
    : string * option error :=
  match v with
  | JNull => (cur, saved)
  | JString s => (s, saved)
  | _ => (cur, saveError saved (UnmarshalTypeError v "string"))
  end.

(** A struct: [null] leaves it as it is, an object stores its members
    one after the other, unknown keys are skipped. *)
Definition storeStruct {S : Type}
    (field : string → json → S → option error → S * option error)
    (tyname : string) (v : json) (cur : S) (saved : option error)
    : S * option error :=
  match v with
  | JNull => (cur, saved)
  | JObject members =>
      fold_left (fun st kv => field (foldKey kv.1) kv.2 st.1 st.2) members (cur, saved)
  | _ => (cur, saveError saved (UnmarshalTypeError v tyname))
  end.

Definition Stack_field (key : string) (v : json) (s : Stack) (saved : option error)
    : Stack * option error :=
  if String.eqb key "name" then
    let r := storeString v (Stack_Name s) saved in
    ({| Stack_Name := r.1; Stack_Type := Stack_Type s; Stack_Message := Stack_Message s |}, r.2)
  else if String.eqb key "type" then
    let r := storeString v (Stack_Type s) saved in
    ({| Stack_Name := Stack_Name s; Stack_Type := r.1; Stack_Message := Stack_Message s |}, r.2)
  else if String.eqb key "message" then
    let r := storeString v (Stack_Message s) saved in
    ({| Stack_Name := Stack_Name s; Stack_Type := Stack_Type s; Stack_Message := r.1 |}, r.2)
  else (s, saved).

Definition Data_field (key : string) (v : json) (d : Data) (saved : option error)
    : Data * option error :=
  if String.eqb key "message" then
    let r := storeString v (Data_Message d) saved in
    ({| Data_Message := r.1; Data_Method := Data_Method d; Data_Stack := Data_Stack d |}, r.2)
  else if String.eqb key "method" then
    let r := storeString v (Data_Method d) saved in
    ({| Data_Message := Data_Message d; Data_Method := r.1; Data_Stack := Data_Stack d |}, r.2)
  else if String.eqb key "stack" then
    let r := storeStruct Stack_field "kodicommunicator.Stack" v (Data_Stack d) saved in
    ({| Data_Message := Data_Message d; Data_Method := Data_Method d; Data_Stack := r.1 |}, r.2)
  else (d, saved).

Definition Error_field (key : string) (v : json) (e : Error) (saved : option error)
    : Error * option error :=
  if String.eqb key "code" then
    let r := storeInt v (Error_Code e) saved in
    ({| Error_Code := r.1; Error_Data := Error_Data e; Error_Message := Error_Message e |}, r.2)
  else if String.eqb key "data" then
    let r := storeStruct Data_field "kodicommunicator.Data" v (Error_Data e) saved in
    ({| Error_Code := Error_Code e; Error_Data := r.1; Error_Message := Error_Message e |}, r.2)
  else if String.eqb key "message" then
    let r := storeString v (Error_Message e) saved in
    ({| Error_Code := Error_Code e; Error_Data := Error_Data e; Error_Message := r.1 |}, r.2)
  else (e, saved).

Definition ErrorResponse_field (key : string) (v : json) (r0 : ErrorResponse)
    (saved : option error) : ErrorResponse * option error :=
  if String.eqb key "error" then
    let r := storeStruct Error_field "kodicommunicator.Error" v (Resp_Error r0) saved in
    ({| Resp_Error := r.1; Resp_ID := Resp_ID r0; Resp_JsonRPC := Resp_JsonRPC r0 |}, r.2)
  else if String.eqb key "id" then
    let r := storeInt v (Resp_ID r0) saved in
    ({| Resp_Error := Resp_Error r0; Resp_ID := r.1; Resp_JsonRPC := Resp_JsonRPC r0 |}, r.2)
  else if String.eqb key "jsonrpc" then
    let r := storeString v (Resp_JsonRPC r0) saved in
    ({| Resp_Error := Resp_Error r0; Resp_ID := Resp_ID r0; Resp_JsonRPC := r.1 |}, r.2)
  else (r0, saved).

(** [json.Unmarshal(resp, &errorResponse)] on a syntactically valid
    document: the struct afterwards and the error returned. *)
Definition Unmarshal (doc : json) (into : ErrorResponse) : ErrorResponse * option error :=
  storeStruct ErrorResponse_field "kodicommunicator.ErrorResponse" doc into None.

End json_dec.

(** ** The network *)

(** [Configuration] represents all configurable options inside this tool. *)
Record Configuration : Type := { Host : string; Port : string }.

Record Request : Type := {
  Req_Method : string;
  Req_URL : string;
  Req_Header : list (string * string);
  Req_Body : json
}.

(** What [ioutil.ReadAll] delivers: bytes that are no JSON text (then
    [json.Unmarshal] returns the scanner's error) or a JSON document. *)
Inductive body : Type :=
  | NotJSON (e : error)
  | Document (doc : json).

(** What the server side does with one request. *)
Inductive reply : Type :=
  | DoFails (e : error)      (* client.Do returns an error *)
  | ReadFails (e : error)    (* ioutil.ReadAll returns an error *)
  | Answers (b : body).

(** The world a run acts on: which URLs [http.NewRequest] rejects, the
    replies still to come, one per request, and the requests handed to
    [client.Do] so far, latest first. *)
Record world : Type := {
  url_error : string → option error;
  script : list reply;
  posted : list Request
}.

(** [client.Do(request)]: the request is recorded and the next reply of
    the script is consumed; an exhausted script is a server that no longer
    answers. *)
Definition client_Do (w : world) (request : Request) : reply * world :=
  match script w with
  | [] => (DoFails (externalError "no reply"),
           {| url_error := url_error w; script := []; posted := request :: posted w |})
  | r :: rest => (r, {| url_error := url_error w; script := rest; posted := request :: posted w |})
  end.

(** ** createJsonError, sendRequest, ExecuteCommand *)

(** [createJsonError] creates a more readable message from an
    [ErrorResponse]. *)
Definition createJsonError (errorResponse : ErrorResponse) : error :=
  let message := "" in
  let message :=
    if negb (String.eqb (Data_Message (Error_Data (Resp_Error errorResponse))) "")
    then message ++ Data_Message (Error_Data (Resp_Error errorResponse)) ++ " "
    else message in
  let message :=
    if negb (String.eqb (Stack_Message (Data_Stack (Error_Data (Resp_Error errorResponse)))) "")
    then message ++ Stack_Message (Data_Stack (Error_Data (Resp_Error errorResponse))) ++ " regarding "
    else message in
  let message :=
    if negb (String.eqb (Stack_Name (Data_Stack (Error_Data (Resp_Error errorResponse)))) "")
    then message ++ ("parameter " ++ dquote)
                 ++ Stack_Name (Data_Stack (Error_Data (Resp_Error errorResponse)))
                 ++ (dquote ++ " ")
    else message in
  let message :=
    if negb (String.eqb (Stack_Type (Data_Stack (Error_Data (Resp_Error errorResponse)))) "")
    then message ++ ("of type " ++ dquote)
                 ++ Stack_Type (Data_Stack (Error_Data (Resp_Error errorResponse)))
                 ++ dquote
    else message in
  errors.New message.

(** A Go function returning only [error] returns [result unit]: [Ok ()]
    is the nil error. *)

(** [sendRequest] actually sends the request to Kodi. *)
Definition sendRequest (host port : string) (js : json) (w : world) : result unit * world :=
  let requestURL := "http://" ++ host ++ ":" ++ port ++ "/jsonrpc" in
  match url_error w requestURL with
  | None =>
      let request := {| Req_Method := "POST"; Req_URL := requestURL;
                        Req_Header := [("Content-Type", "application/json")];
                        Req_Body := js |} in
      let '(r, w) := client_Do w request in
      match r with
      | Answers (Document doc) =>
          let '(errorResponse, err) := json_dec.Unmarshal doc zeroErrorResponse in
          match err with
          | None =>
              if negb (Error_Code (Resp_Error errorResponse) =? 0)
              then (Err (createJsonError errorResponse), w)
              else (Ok (), w)
          | Some err => (Err err, w)
          end
      | Answers (NotJSON err) => (Err err, w)
      | ReadFails err => (Err err, w)
      | DoFails err => (Err err, w)
      end
  | Some err => (Err err, w)
  end.

(** [for i := 0; i < repeatCount; i++ { err = sendRequest(...) }] with
    [remaining] iterations to go: each iteration overwrites [err]. *)
Fixpoint send_loop (remaining : nat) (host port : string) (cmd : json)
    (err : result unit) (w : world) : result unit * world :=
  match remaining with
  | O => (err, w)
  | S remaining =>
      let '(err, w) := sendRequest host port cmd w in
      send_loop remaining host port cmd err w
  end.

(** [ExecuteCommand] takes the action, looks up the appropriate JSON-RPC
    command and sends the request to the configured address. *)
Definition ExecuteCommand (config : Configuration) (action : string)
    (params : list string) (w : world) : result unit * world :=
  match getRepeatCount action params with
  | Ok (repeatCount, params) =>
      match createJsonCommand action params with
      | Ok cmd => send_loop (Z.to_nat repeatCount) (Host config) (Port config) cmd (Ok ()) w
      | Err err => (Err err, w)
      | Panic p => (Panic p, w)
      end
  | Err err => (Err err, w)
  | Panic p => (Panic p, w)
  end.

(** ** Vocabulary of the statements *)

(** The first tokens the seek builder maps to a symbolic seek value. *)
Definition symbolic_tokens : list string := ["+"; "++"; "-"; "--"].

(** The payloads of the seek builder, written out entry by entry. *)
Definition seek_symbol (v : string) : gmap string value :=
  list_to_map [("playerid", VInt 1); ("value", VString v)].

Definition seek_time (hours minutes seconds milliseconds : Z) : gmap string value :=
  list_to_map
    [("playerid", VInt 1);
     ("value", VMapInt (list_to_map [("hours", hours); ("minutes", minutes);
                                     ("seconds", seconds); ("milliseconds", milliseconds)]))].

(** The time part of the seek builder in the words of §4.2 of the
    specification: three pieces are hours, minutes and seconds, two pieces
    are minutes and seconds, anything else is an illegal parameter;
    milliseconds are 0. *)
Definition seek_time_of (parts : list string) : result (gmap string value) :=
  match parts with
  | [h; m; s] =>
      hours ← parseTimeNumber h;
      minutes ← parseTimeNumber m;
      seconds ← parseTimeNumber s;
      Ok (seek_time hours minutes seconds 0)
  | [m; s] =>
      minutes ← parseTimeNumber m;
      seconds ← parseTimeNumber s;
      Ok (seek_time 0 minutes seconds 0)
  | _ => Err (errors.New illegal_parameter)
  end.

Definition time_range_message (number : string) : string :=
  "A time-number needs to be between 0 and 59, but was " ++ number.

(** A time component the builder accepts. *)
Definition in_range (number : string) : Prop :=
  ∃ n, strconv.Atoi number = Ok n ∧ 0 ≤ n ≤ 59.

(** The actions [getRepeatCount] treats as repeatable. *)
Definition directional : list string := ["up"; "down"; "left"; "right"].

(** The table of §4.1 of the specification: CLI name and remote method. *)
Definition MethodTable : list (string * string) :=
  [ ("play", "Player.PlayPause"); ("pause", "Player.PlayPause");
    ("stop", "Player.Stop"); ("mute", "Application.SetMute");
    ("seek", "Player.Seek"); ("speed", "Player.Speed");
    ("action", "Input.Select"); ("context", "Input.ContextMenu");
    ("info", "Input.Info"); ("home", "Input.Home"); ("back", "Input.Back");
    ("left", "Input.Left"); ("right", "Input.Right"); ("up", "Input.Up");
    ("down", "Input.Down"); ("notify", "GUI.ShowNotification");
    ("clean", "VideoLibrary.Clean"); ("update", "VideoLibrary.Scan") ].

Definition registered_names : list string :=
  [ "play"; "pause"; "stop"; "mute"; "seek"; "speed"; "action"; "context";
    "info"; "home"; "back"; "left"; "right"; "up"; "down"; "notify"; "clean";
    "update" ].

Definition unknown_command (action : string) : error :=
  errors.New ("The Command " ++ action ++ " is unknown.").

(** A segment of the composed message: left out when its field is empty. *)
Definition segment (field : string) (render : string → string) : string :=
  if String.eqb field "" then "" else render field.

(** The message of a remote error in the words of §7 of the specification:
    the data message, the stack message suffixed [regarding], the quoted
    parameter name and the quoted type, in this order, empty segments left
    out; the separators and the words [parameter] and [of type] are those of
    [createJsonError]. *)
Definition composed_message (r : ErrorResponse) : string :=
  let data := Error_Data (Resp_Error r) in
  let stack := Data_Stack data in
  String.concat ""
    [ segment (Data_Message data) (λ s, s ++ " ");
      segment (Stack_Message stack) (λ s, s ++ " regarding ");
      segment (Stack_Name stack) (λ s, "parameter " ++ dquote ++ s ++ dquote ++ " ");
      segment (Stack_Type stack) (λ s, "of type " ++ dquote ++ s ++ dquote) ].

(** The error response of §8: code 402, data message [Invalid params],
    stack name [title], stack type [string], with a given stack message. *)
Definition invalid_params (stack_message : string) : ErrorResponse :=
  {| Resp_Error :=
       {| Error_Code := 402;
          Error_Data :=
            {| Data_Message := "Invalid params"; Data_Method := "";
               Data_Stack := {| Stack_Name := "title"; Stack_Type := "string";
                                Stack_Message := stack_message |} |};
          Error_Message := "" |};
     Resp_ID := 1; Resp_JsonRPC := "2.0" |}.

(** The message §8 of the specification expects for it. *)
Definition expected_invalid_params : string :=
  "Invalid params regarding parameter " ++ dquote ++ "title" ++ dquote
  ++ " of type " ++ dquote ++ "string" ++ dquote.

(** The address [sendRequest] posts to and the request it builds. *)
Definition request_url (host port : string) : string :=
  "http://" ++ host ++ ":" ++ port ++ "/jsonrpc".

Definition json_post (host port : string) (js : json) : Request :=
  {| Req_Method := "POST"; Req_URL := request_url host port;
     Req_Header := [("Content-Type", "application/json")]; Req_Body := js |}.

(** The world after the next reply has been consumed by [request]. *)
Definition after_reply (w : world) (request : Request) : world :=
  {| url_error := url_error w; script := tail (script w); posted := request :: posted w |}.

(** A response document without an [error] member: anything but an object
    has none; an object has none when no key matches the field name. *)
Definition lacks_error_member (doc : json) : Prop :=
  match doc with
  | JObject members => Forall (λ kv, json_dec.foldKey kv.1 ≠ "error") members
  | _ => True
  end.

(** The response bodies of §8 of the specification. *)
Definition invalid_params_body : json :=
  JObject [("error", JObject [("code", JInt 402);
                              ("data", JObject [("message", JString "Invalid params");
                                                ("stack", JObject [("name", JString "title");
                                                                   ("type", JString "string")])])]);
           ("id", JInt 1); ("jsonrpc", JString "2.0")].

Definition code_zero_body : json :=
  JObject [("error", JObject [("code", JInt 0)]); ("id", JInt 1); ("jsonrpc", JString "2.0")].

Definition no_error_body : json :=
  JObject [("jsonrpc", JString "2.0"); ("id", JInt 1)].

(** A server that answers the first request with the remote error above
    and the second one without error. *)
Definition error_then_success : world :=
  {| url_error := λ _, None;
     script := [Answers (Document invalid_params_body); Answers (Document no_error_body)];
     posted := [] |}.

Definition localhost : Configuration := {| Host := "localhost"; Port := "8080" |}.

(** What one reply makes [sendRequest] return. *)
Definition reply_outcome (r : reply) : result unit :=
  match r with
  | DoFails err => Err err
  | ReadFails err => Err err
  | Answers (NotJSON err) => Err err
  | Answers (Document doc) =>
      match json_dec.Unmarshal doc zeroErrorResponse with
      | (errorResponse, None) =>
          if Error_Code (Resp_Error errorResponse) =? 0 then Ok ()
          else Err (createJsonError errorResponse)
      | (_, Some err) => Err err
      end
  end.

(** The reply [client_Do] hands out next. *)
Definition next_reply (w : world) : reply :=
  default (DoFails (externalError "no reply")) (head (script w)).

(** The world after [n] requests [request] have been posted. *)
Definition after_replies (n : nat) (w : world) (request : Request) : world :=
  {| url_error := url_error w; script := drop n (script w);
     posted := (replicate n request ++ posted w)%list |}.

(** The error body Kodi sends for an unknown method: a code and a message,
    no [data]. *)
Definition method_not_found_body : json :=
  JObject [("error", JObject [("code", JInt (-32601)); ("message", JString "Method not found.")]);
           ("id", JInt 1); ("jsonrpc", JString "2.0")].

(** * package administration *)

(** A library call returning [(T, error)] that cannot fault. *)
Inductive fallible (A : Type) : Type :=
  | Returned (a : A)
  | Failed (e : error).
Arguments Returned {A} a.
Arguments Failed {A} e.

(** The operating system as the package uses it, over a type [S] of disk
    states: [homedir.Dir()], [ioutil.ReadFile(path)] (the bytes read are
    seen as a [body]: no JSON text, or a JSON document),
    [ioutil.WriteFile(path, data, perm)] and [os.MkdirAll(path, perm)], whose
    error the program discards. *)
Class FileSystem (S : Type) : Type := {
  homedir_Dir : S → fallible string;
  ioutil_ReadFile : S → string → fallible body;
  ioutil_WriteFile : S → string → json → Z → option error * S;
  os_MkdirAll : S → string → Z → S
}.

Definition fileDirectory : string := ".config/kodiremote/".
Definition filePath : string := fileDirectory ++ "kodiremote.conf".

(** [os.ModeDir | 0700] and [0700]. *)
Definition ModeDir_0700 : Z := Z.lor (2 ^ 31) 448.
Definition perm_0700 : Z := 448.

(** The package variable [fullPathCache] and the disk. *)
Record storage (S : Type) : Type := {
  fullPathCache : string;
  disk : S
}.
Arguments fullPathCache {S} _.
Arguments disk {S} _.

(** [var configuration Configuration]. *)
Definition zeroConfiguration : Configuration := {| Host := ""; Port := "" |}.

(** [json.Marshal(configuration)]: the fields under their Go names.  A
    string that is valid UTF-8 is written as a token that decodes to the same
    string; other bytes are replaced when written, which the token does not
    show. *)
Definition MarshalConfiguration (c : Configuration) : json :=
  JObject [("Host", JString (Host c)); ("Port", JString (Port c))].

Definition Configuration_field (key : string) (v : json) (c : Configuration)
    (saved : option error) : Configuration * option error :=
  if String.eqb key "host" then
    let r := json_dec.storeString v (Host c) saved in
    ({| Host := r.1; Port := Port c |}, r.2)
  else if String.eqb key "port" then
    let r := json_dec.storeString v (Port c) saved in
    ({| Host := Host c; Port := r.1 |}, r.2)
  else (c, saved).

(** [json.Unmarshal(jsonString, &configuration)] on a syntactically valid
    document. *)
Definition UnmarshalConfiguration (doc : json) (into : Configuration)
    : Configuration * option error :=
  json_dec.storeStruct Configuration_field "administration.Configuration" doc into None.

Section administration.
Context {S : Type} `{FileSystem S}.

Definition getFullConfigPath (st : storage S) : fallible string * storage S :=
  if Z.of_nat (String.length (fullPathCache st)) =? 0 then
    match homedir_Dir (disk st) with
    | Returned home =>
        let st := {| fullPathCache := home ++ "/" ++ filePath; disk := disk st |} in
        (Returned (fullPathCache st), st)
    | Failed err => (Failed err, st)
    end
  else (Returned (fullPathCache st), st).

(** [loadConfiguration]: the error of [json.Unmarshal] is assigned to the
    [err] of the inner [if]; the final [return configuration, err] reads the
    outer one, which is nil there. *)
Definition loadConfiguration (st : storage S) : (Configuration * option error) * storage S :=
  let configuration := zeroConfiguration in
  let '(path, st) := getFullConfigPath st in
  match path with
  | Returned path =>
      let err : option error := None in
      match ioutil_ReadFile (disk st) path with
      | Returned (Document doc) =>
          let '(configuration, err') := UnmarshalConfiguration doc configuration in
          match err' with
          | None => ((configuration, None), st)
          | Some _ => ((configuration, err), st)
          end
      | Returned (NotJSON _) => ((configuration, err), st)
      | Failed err => ((configuration, Some err), st)
      end
  | Failed err => ((configuration, Some err), st)
  end.

(** [WriteConfiguration] writes the configuration to the filesystem.  The
    results of [homedir.Dir] and [ioutil.WriteFile] go to the [err] of the
    inner [if]; the function returns the one of [json.Marshal]. *)
Definition WriteConfiguration (configuration : Configuration) (st : storage S)
    : option error * storage S :=
  let jsonConf := MarshalConfiguration configuration in
  let err : option error := None in
  match homedir_Dir (disk st) with
  | Returned home =>
      let r := ioutil_WriteFile (disk st) (home ++ "/" ++ filePath) jsonConf perm_0700 in
      (err, {| fullPathCache := fullPathCache st; disk := r.2 |})
  | Failed _ => (err, st)
  end.

(** [CreateConfiguration] checks if an configuration exists and if there
    exists one it is loaded and returned, otherwise an empty configuration
    will be created, saved and returned. *)
Definition CreateConfiguration (st : storage S) : (Configuration * option error) * storage S :=
  let '((configuration, err), st) := loadConfiguration st in
  match err with
  | Some _ =>
      match homedir_Dir (disk st) with
      | Returned home =>
          let initialConfig := zeroConfiguration in
          let st := {| fullPathCache := fullPathCache st;
                       disk := os_MkdirAll (disk st) (home ++ "/" ++ fileDirectory) ModeDir_0700 |} in
          let '(err, st) := WriteConfiguration initialConfig st in
          ((initialConfig, err), st)
      | Failed err => ((configuration, Some err), st)
      end
  | None => ((configuration, None), st)
  end.

End administration.

(** A disk for examples: the home directory, the directories and the
    files; a file can be written when its directory exists, and
    [os.MkdirAll] creates the directory. *)
Record toy_disk : Type := {
  toy_home : fallible string;
  toy_dirs : list string;
  toy_files : list (string * body)
}.

Fixpoint toy_lookup (path : string) (files : list (string * body)) : option body :=
  match files with
  | [] => None
  | (p, b) :: rest => if String.eqb p path then Some b else toy_lookup path rest
  end.

(** The directory part of a path: up to and including the last [/]. *)
Fixpoint toy_dirname (path : string) : string :=
  match path with
  | EmptyString => EmptyString
  | String c rest =>
      if strings.has_byte rest "/" then String c (toy_dirname rest)
      else if Ascii.eqb c "/" then String c EmptyString else EmptyString
  end.

#[global] Instance toy_FileSystem : FileSystem toy_disk := {|
  homedir_Dir d := toy_home d;
  ioutil_ReadFile d path :=
    match toy_lookup path (toy_files d) with
    | Some b => Returned b
    | None => Failed (externalError "no such file or directory")
    end;
  ioutil_WriteFile d path data perm :=
    if bool_decide (toy_dirname path ∈ toy_dirs d) then
      (None, {| toy_home := toy_home d; toy_dirs := toy_dirs d;
                toy_files := (path, Document data) :: toy_files d |})
    else (Some (externalError "no such file or directory"), d);
  os_MkdirAll d path perm :=
    {| toy_home := toy_home d; toy_dirs := path :: toy_dirs d; toy_files := toy_files d |}
|}.

(** Whether every byte of [s] is below 128. *)
Fixpoint is_ascii (s : string) : bool :=
  match s with
  | EmptyString => true
  | String c rest => (N_of_ascii c <? 128)%N && is_ascii rest
  end.

(** A first run: the home directory resolves, nothing exists below it. *)
Definition fresh_disk : toy_disk :=
  {| toy_home := Returned "/home/kodi"; toy_dirs := []; toy_files := [] |}.

(** A disk whose configuration file holds [content]. *)
Definition disk_with (content : body) : toy_disk :=
  {| toy_home := Returned "/home/kodi";
     toy_dirs := ["/home/kodi/.config/kodiremote/"];
     toy_files := [("/home/kodi/.config/kodiremote/kodiremote.conf", content)] |}.

Definition start (d : toy_disk) : storage toy_disk := {| fullPathCache := ""; disk := d |}.

(** * package main *)

(** What the program writes to standard output, call by call:
    [fmt.Println] of string operands, [fmt.Println(err.Error())], and a
    [for k, v := range m] loop printing [k - v] for every entry of a map, in
    the order the runtime ranges over it. *)
Inductive event : Type :=
  | Println (operands : list string)
  | PrintlnError (e : error)
  | PrintlnEach (entries : gmap string string).

(** [out +++ events]: the output so far followed by [events]. *)
Notation "out +++ events" := (@app event out events) (at level 60, right associativity).

(** [checkAndHandleArgumentsConfig]: the configuration afterwards and the
    value returned. *)
Fixpoint checkAndHandleArgumentsConfig_loop (configuration : Configuration)
    (changed : bool) (args : list string) : result (Configuration * bool) :=
  match args with
  | [] => Ok (configuration, changed)
  | arg :: rest =>
      if String.prefix "--host=" arg then
        v ← index (strings.Split arg "=") 1;
        checkAndHandleArgumentsConfig_loop {| Host := v; Port := Port configuration |} true rest
      else if String.prefix "--port=" arg then
        v ← index (strings.Split arg "=") 1;
        checkAndHandleArgumentsConfig_loop {| Host := Host configuration; Port := v |} true rest
      else checkAndHandleArgumentsConfig_loop configuration changed rest
  end.

Definition checkAndHandleArgumentsConfig (configuration : Configuration)
    (args : list string) : result (Configuration * bool) :=
  checkAndHandleArgumentsConfig_loop configuration false args.

Fixpoint splitParameterIntoMap_loop (params : gmap string value) (paramPairs : list string)
    : result (gmap string value) :=
  match paramPairs with
  | [] => Ok params
  | paramPair :: rest =>
      let pair := strings.Split paramPair ":" in
      k ← index pair 0;
      v ← index pair 1;
      splitParameterIntoMap_loop (<[ k := VString v ]> params) rest
  end.

Definition splitParameterIntoMap (args : list string) : result (gmap string value) :=
  let params : gmap string value := ∅ in
  if 1 <? len args then
    a1 ← index args 1;
    splitParameterIntoMap_loop params (strings.Split a1 ",")
  else Ok params.

Definition printUsage (args : list string) (out : list event) : result unit * list event :=
  match index args 0 with
  | Ok a0 =>
      (Ok (),
       out +++ [ Println ["Usage:"; a0; "command [paramter]"];
                Println ["Parameters are entered as follows: " ++ dquote
                         ++ "key1:value,key2:value" ++ dquote];
                Println ["To get help type"; a0; "help"];
                Println ["To get help for a specific command type"; a0; "help <command>"];
                Println [];
                Println ["List of all available commands:"];
                PrintlnEach (Description <$> CommandMap) ])
  | Err e => (Err e, out)
  | Panic p => (Panic p, out)
  end.

Definition printHelp (args : list string) (out : list event) : result unit * list event :=
  printUsage args
    (out +++ [ Println ["If you run the tool the first time you need to configure it. Therefore you need to call it with the parameters --host=<kodi-address> and --port=<kodi-port>."];
              Println [];
              Println ["If the tool is properly configured you can just run it by passing the name of the command as the first parameter and as the second parameter the parameter for the command."];
              Println ["The command-params need to be passed like " ++ dquote
                       ++ "title:test123,message:I'm here!" ++ dquote
                       ++ " so a complete call would look like 'krm notify " ++ dquote
                       ++ "title:test123,I'm here!'"] ]).

(** The loop of [checkAndPrintHelp] from index [idx] on, [rest] being
    [args[idx:]]. *)
Fixpoint checkAndPrintHelp_loop (args : list string) (idx : Z) (rest : list string)
    (out : list event) : result bool * list event :=
  match rest with
  | [] => (Ok false, out)
  | arg :: rest =>
      if String.eqb arg "help" then
        if idx <? len args - 1 then
          match (index args (idx + 1) ≫= GetCommandForName : result (Command * bool)) with
          | Ok (command, success) =>
              if success then
                let out := out +++ [ Println ["Help for command"; CliName command];
                                    Println ["Description:"; Description command] ] in
                if 0 <? Z.of_nat (size (ParametersDescription command)) then
                  (Ok true, out +++ [ Println ["Parameters"];
                                     PrintlnEach (ParametersDescription command) ])
                else (Ok true, out)
              else (Ok true, out +++ [ Println ["The command"; arg; "is not supported."] ])
          | Err e => (Err e, out)
          | Panic p => (Panic p, out)
          end
        else
          match printHelp args out with
          | (Ok _, out) => (Ok true, out)
          | (Err e, out) => (Err e, out)
          | (Panic p, out) => (Panic p, out)
          end
      else checkAndPrintHelp_loop args (idx + 1) rest out
  end.

Definition checkAndPrintHelp (args : list string) (out : list event)
    : result bool * list event :=
  checkAndPrintHelp_loop args 0 args out.

(** The state of a run: the package state and the disk, the network, and
    what has been printed. *)
Record process (S : Type) : Type := {
  store : storage S;
  net : world;
  stdout : list event
}.
Arguments store {S} _.
Arguments net {S} _.
Arguments stdout {S} _.

Definition no_host_configured : string :=
  "No host configured. Please see " ++ dquote ++ "help" ++ dquote
  ++ " to learn about how to configure the remote.".

Section main.
Context {S : Type} `{FileSystem S}.

(** [main] on [os.Args].  The error made for an empty host is stored in a
    variable that the next statement shadows. *)
Definition main (Args : list string) (p : process S) : result unit * process S :=
  if len Args <? 2 then
    let '(r, out) := printUsage Args (stdout p) in
    (r, {| store := store p; net := net p; stdout := out |})
  else
    match checkAndPrintHelp Args (stdout p) with
    | (Ok true, out) => (Ok (), {| store := store p; net := net p; stdout := out |})
    | (Ok false, out) =>
        let args := drop 1 Args in
        let '((config, err), st) := CreateConfiguration (store p) in
        match err with
        | None =>
            match checkAndHandleArgumentsConfig config args with
            | Ok (config, true) =>
                let '(err, st) := WriteConfiguration config st in
                (Ok (), {| store := st; net := net p;
                           stdout := out ++ match err with
                                            | Some e => [PrintlnError e]
                                            | None => []
                                            end |})
            | Ok (config, false) =>
                let err : option error :=
                  if Z.of_nat (String.length (Host config)) =? 0
                  then Some (errors.New no_host_configured) else err in
                match index args 0 with
                | Ok action =>
                    let '(err, w) := ExecuteCommand config action (drop 1 args) (net p) in
                    match err with
                    | Ok _ => (Ok (), {| store := st; net := w; stdout := out |})
                    | Err e => (Ok (), {| store := st; net := w;
                                          stdout := out +++ [PrintlnError e] |})
                    | Panic q => (Panic q, {| store := st; net := w; stdout := out |})
                    end
                | Err e => (Err e, {| store := st; net := net p; stdout := out |})
                | Panic q => (Panic q, {| store := st; net := net p; stdout := out |})
                end
            | Err e => (Err e, {| store := st; net := net p; stdout := out |})
            | Panic q => (Panic q, {| store := st; net := net p; stdout := out |})
            end
        | Some e =>
            (Ok (), {| store := st; net := net p; stdout := out +++ [PrintlnError e] |})
        end
    | (Err e, out) => (Err e, {| store := store p; net := net p; stdout := out |})
    | (Panic q, out) => (Panic q, {| store := store p; net := net p; stdout := out |})
    end.

End main.

(** An argument [checkAndHandleArgumentsConfig] acts on. *)
Definition is_config_arg (arg : string) : bool :=
  String.prefix "--host=" arg || String.prefix "--port=" arg.

(** The text of [s] before its first [=], all of [s] when it has none. *)
Fixpoint before_equals (s : string) : string :=
  match s with
  | EmptyString => EmptyString
  | String c rest => if Ascii.eqb c "=" then EmptyString else String c (before_equals rest)
  end.

(** A first run against a server that answers once without error. *)
Definition first_run : process toy_disk :=
  {| store := start fresh_disk;
     net := {| url_error := λ _, None; script := [Answers (Document no_error_body)];
               posted := [] |};
     stdout := [] |}.

(** * package kodicommunicator, the revision of
    src/src/kodicommunicator/kodicommunicator.go

    The same package before parameter builders, repeat counts and response
    decoding were added: parameters arrive as a [map[string]string], the
    request identifier is tagged [ID], and the response is read and dropped. *)
Module legacy.

Record Command : Type := {
  CliName : string;
  KodiName : string;
  Description : string;
  Parameters : gmap string string
}.

Record CommandRequest : Type := {
  JSONrpc : string;                (* `json:"jsonrpc"` *)
  Method : string;                 (* `json:"method"` *)
  Params : gmap string string;     (* `json:"params,omitempty"` *)
  ID : Z                           (* `json:"ID"` *)
}.

Definition zeroCommandRequest : CommandRequest :=
  {| JSONrpc := ""; Method := ""; Params := ∅; ID := 0 |}.

Definition SetValues (self : CommandRequest) (method : string)
    (params : gmap string string) : CommandRequest :=
  {| JSONrpc := "2.0"; ID := 1; Method := method; Params := params |}.

Definition MarshalCommandRequest (c : CommandRequest) : json :=
  JObject ([("jsonrpc", JString (JSONrpc c)); ("method", JString (Method c))]
           ++ (if Z.of_nat (size (Params c)) =? 0 then []
               else [("params",
                      JObject (prod_map id JString <$> json_enc.sorted_entries (Params c)))])
           ++ [("ID", JInt (ID c))]).

Definition mkCommand (cli kodi descr : string) (pd : gmap string string) : Command :=
  {| CliName := cli; KodiName := kodi; Description := descr; Parameters := pd |}.

Definition seek_parameters : gmap string string :=
  <[ "percentage" := "(optional) the time in percent of the total time." ]>
  (<[ "time" := "(optional) the relative time to jump" ]>
  {[ "totaltime" := "(optional) the total time to jump to." ]}).

Definition CommandEntries : list (string * Command) :=
  [ ("play", mkCommand "play" "Input.PlayPause"
       "Resumes the current playback from pause state." ∅);
    ("pause", mkCommand "pause" "Input.PlayPause" "Pauses the current playback." ∅);
    ("stop", mkCommand "stop" "Input.Stop" "Stops the current playback." ∅);
    ("mute", mkCommand "mute" "Application.SetMute" "Mutes or unmutes the audio." ∅);
    ("seek", mkCommand "seek" "Player.Seek" "Jumps to the given time." seek_parameters);
    ("speed", mkCommand "speed" "Player.Speed" "Set the playback speed."
       {[ "speed" := "Speed as integer" ]});
    ("action", mkCommand "action" "Input.Select" "Selects the current selection." ∅);
    ("context", mkCommand "context" "Input.ContextMenu" "Opens the context menu." ∅);
    ("info", mkCommand "info" "Input.Info" "Opens the info view." ∅);
    ("home", mkCommand "home" "Input.Home" "Returns to the home screen." ∅);
    ("back", mkCommand "back" "Input.Back" "Returns to the previous view." ∅);
    ("left", mkCommand "left" "Input.Left" "Sends the cursor one item to the left" ∅);
    ("right", mkCommand "right" "Input.Right" "Sends the cursor one item to the right." ∅);
    ("up", mkCommand "up" "Input.Up" "Sends the cursor one item up." ∅);
    ("down", mkCommand "down" "Input.Down" "Sends the cursor one item down." ∅);
    ("notify", mkCommand "notify" "GUI.ShowNotification"
       "Displays a notification on the screen." notify_description);
    ("clean", mkCommand "clean" "VideoLibrary.Clean"
       "Cleans the video library from non-existent items." ∅);
    ("update", mkCommand "update" "VideoLibrary.Scan"
       "Scans the video sources for new library items." ∅) ].

Definition CommandMap : gmap string Command := list_to_map CommandEntries.

Definition GetCommandForName (cmd : string) : result (Command * bool) :=
  match CommandMap !! cmd with
  | Some command => Ok (command, true)
  | None => Panic NilDereference
  end.

(** [sendRequest]: the error of [client.Do] lives in the inner [if];
    [return err] after it reads the one of [http.NewRequest], nil there. *)
Definition sendRequest (host port : string) (js : json) (w : world) : result unit * world :=
  let requestURL := "http://" ++ host ++ ":" ++ port ++ "/jsonrpc" in
  match url_error w requestURL with
  | None =>
      let err : result unit := Ok () in
      let request := {| Req_Method := "POST"; Req_URL := requestURL;
                        Req_Header := [("Content-Type", "application/json")];
                        Req_Body := js |} in
      let '(r, w) := client_Do w request in
      match r with
      | DoFails _ => (err, w)
      | ReadFails _ => (Ok (), w)
      | Answers _ => (Ok (), w)
      end
  | Some err => (Err err, w)
  end.

Definition createJsonCommand (action : string) (params : gmap string string) : result json :=
  let command := zeroCommandRequest in
  match CommandMap !! action with
  | Some cmd =>
      let command := SetValues command (KodiName cmd) params in
      Ok (MarshalCommandRequest command)
  | None => Err (errors.New ("The Command " ++ action ++ " is unknown."))
  end.

Definition ExecuteCommand (config : Configuration) (action : string)
    (params : gmap string string) (w : world) : result unit * world :=
  match createJsonCommand action params with
  | Ok cmd => sendRequest (Host config) (Port config) cmd w
  | Err err => (Err err, w)
  | Panic p => (Panic p, w)
  end.

End legacy.
(** * Properties *)

(** ** Slices and the Go library fragments *)

Section slices.
Context {A : Type}.
Implicit Types l : list A.

Lemma len_nonneg l : 0 ≤ len l.
Proof. unfold len. lia. Qed.

Lemma index_lookup l (i : nat) x : l !! i = Some x → index l (Z.of_nat i) = Ok x.
Proof.
  intros Hl. unfold index, len.
  pose proof (lookup_lt_Some _ _ _ Hl) as Hlt.
  destruct (Z.of_nat i <? 0) eqn:E1; [lia|].
  destruct (Z.of_nat (length l) <=? Z.of_nat i) eqn:E2; [lia|].
  cbn. by rewrite Nat2Z.id, Hl.
Qed.

Lemma index_head l x : head l = Some x → index l 0 = Ok x.
Proof. intros H. apply (index_lookup l 0). by rewrite <- head_lookup. Qed.

Lemma index_last l x : last l = Some x → index l (len l - 1) = Ok x.
Proof.
  intros H. rewrite last_lookup in H.
  pose proof (lookup_lt_Some _ _ _ H) as Hlt.
  replace (len l - 1) with (Z.of_nat (Nat.pred (length l))) by (unfold len; lia).
  by apply index_lookup.
Qed.

Lemma index_empty (i : Z) : index (@nil A) i = Panic (IndexOutOfRange i 0).
Proof. unfold index. destruct ((i <? 0) || _); [done|]. by rewrite lookup_nil. Qed.

Lemma take_init l x : take (Z.to_nat (len (l ++ [x]) - 1)) (l ++ [x]) = l.
Proof.
  unfold len. rewrite length_app. cbn.
  replace (Z.to_nat (Z.of_nat (length l + 1) - 1)) with (length l) by lia.
  by rewrite take_app_length.
Qed.
End slices.

Lemma Atoi_total (s : string) :
  (∃ n, strconv.Atoi s = Ok n ∧ strconv.minInt ≤ n ≤ strconv.maxInt) ∨
  (∃ k, strconv.Atoi s = Err (NumError "Atoi" s k)).
Proof.
  unfold strconv.Atoi.
  set (body := match s with String "+" r => r | String "-" r => r | _ => s end).
  set (neg := match s with String "-" _ => true | _ => false end).
  destruct body; [right; eauto|].
  destruct (strconv.digits _ 0) as [n|]; [|right; eauto].
  set (v := if neg then - n else n).
  destruct (v <? strconv.minInt) eqn:E1; [right; eauto|].
  destruct (strconv.maxInt <? v) eqn:E2; [right; eauto|].
  left. exists v. split; [reflexivity | lia].
Qed.

Lemma Atoi_no_panic (s : string) (p : panic) : strconv.Atoi s ≠ Panic p.
Proof. destruct (Atoi_total s) as [(n & -> & _)|(k & ->)]; discriminate. Qed.

Lemma Split_nonempty (s : string) (sep : ascii) : strings.Split s sep ≠ [].
Proof.
  destruct s as [|c s]; cbn; [done|].
  destruct (Ascii.eqb c sep); [done|]. by destruct (strings.Split s sep).
Qed.

(** The model of [strings.Split] cuts exactly at the separators: gluing
    the pieces with the separator gives the string back, and no piece
    holds the separator. *)
Lemma Split_Join (s : string) (sep : ascii) : strings.Join (strings.Split s sep) sep = s.
Proof.
  induction s as [|c s IH]; [reflexivity|]. cbn [strings.Split].
  pose proof (Split_nonempty s sep) as Hne.
  destruct (strings.Split s sep) as [|p ps] eqn:E; [done|].
  destruct (Ascii.eqb_spec c sep) as [->|Hc].
  - cbn in *. by rewrite IH.
  - destruct ps; cbn in *; by rewrite <- IH.
Qed.

Lemma Split_pieces (s : string) (sep : ascii) :
  Forall (λ p, strings.has_byte p sep = false) (strings.Split s sep).
Proof.
  induction s as [|c s IH]; cbn [strings.Split]; [by repeat constructor|].
  destruct (Ascii.eqb_spec c sep) as [->|Hne]; [by constructor|].
  destruct (strings.Split s sep) as [|p ps]; [by repeat constructor; cbn;
    destruct (Ascii.eqb_spec c sep)|].
  inversion_clear IH. constructor; [|done]. cbn.
  by destruct (Ascii.eqb_spec c sep).
Qed.

(** The library fragments on the inputs that matter to the program. *)
Example Split_three : strings.Split "01:02:03" ":" = ["01"; "02"; "03"].
Proof. reflexivity. Qed.

Example Split_no_separator : strings.Split "" ":" = [""].
Proof. reflexivity. Qed.

Example Split_empty_pieces : strings.Split "1::" ":" = ["1"; ""; ""].
Proof. reflexivity. Qed.

Example Atoi_signs :
  strconv.Atoi "+5" = Ok 5 ∧ strconv.Atoi "-0" = Ok 0 ∧ strconv.Atoi "007" = Ok 7 ∧
  strconv.Atoi "-12" = Ok (-12).
Proof. repeat split; reflexivity. Qed.

Example Atoi_syntax :
  strconv.Atoi "" = Err (NumError "Atoi" "" ErrSyntax) ∧
  strconv.Atoi "-" = Err (NumError "Atoi" "-" ErrSyntax) ∧
  strconv.Atoi "1_0" = Err (NumError "Atoi" "1_0" ErrSyntax) ∧
  strconv.Atoi " 1" = Err (NumError "Atoi" " 1" ErrSyntax).
Proof. repeat split; reflexivity. Qed.

Example Atoi_range :
  strconv.Atoi "9223372036854775807" = Ok strconv.maxInt ∧
  strconv.Atoi "9223372036854775808" = Err (NumError "Atoi" "9223372036854775808" ErrRange) ∧
  strconv.Atoi "-9223372036854775808" = Ok strconv.minInt.
Proof. repeat split; reflexivity. Qed.

(** ** The seek builder *)

(** Closes [H : x ∈ [a; b; ...]] when [x] is a literal different from
    every element. *)
Ltac refute_elem H :=
  repeat (apply elem_of_cons in H as [H|H]; [discriminate H|]);
  by apply elem_of_nil in H.

Lemma seek_value_symbol v : seek_value (VString v) = seek_symbol v.
Proof. reflexivity. Qed.

Lemma seek_value_time h m s :
  seek_value (VMapInt (<["seconds" := s]> (<["minutes" := m]> (<["hours" := h]> timeMap0))))
  = seek_time h m s 0.
Proof. reflexivity. Qed.

Lemma seek_symbolic p0 rest :
  seek_builder (p0 :: rest) =
    if String.eqb p0 "+" then Ok (seek_symbol "smallforward")
    else if String.eqb p0 "++" then Ok (seek_symbol "bigforward")
    else if String.eqb p0 "-" then Ok (seek_symbol "smallbackward")
    else if String.eqb p0 "--" then Ok (seek_symbol "bigbackward")
    else
      tok ← index (p0 :: rest) (len (p0 :: rest) - 1);
      let hms := strings.Split tok ":" in
      '(timeMap, hms) ←
        (if len hms =? 3 then
           h ← index hms 0;
           hours ← parseTimeNumber h;
           Ok (<[ "hours" := hours ]> timeMap0, drop 1 hms)
         else Ok (timeMap0, hms));
      if len hms =? 2 then
        m ← index hms 0;
        minutes ← parseTimeNumber m;
        s ← index hms 1;
        seconds ← parseTimeNumber s;
        Ok (seek_value (VMapInt (<[ "seconds" := seconds ]> (<[ "minutes" := minutes ]> timeMap))))
      else Err (errors.New illegal_parameter).
Proof.
  unfold seek_builder.
  assert ((len (p0 :: rest) <? 1) = false) as -> by (apply Z.ltb_ge; unfold len; cbn [length]; lia).
  rewrite (index_head (p0 :: rest) p0) by done. cbn [mbind result_bind].
  destruct (String.eqb p0 "+"); [done|].
  destruct (String.eqb p0 "++"); [done|].
  destruct (String.eqb p0 "-"); [done|].
  destruct (String.eqb p0 "--"); [done|]. reflexivity.
Qed.

Lemma parseTimeNumber_no_panic s p : parseTimeNumber s ≠ Panic p.
Proof.
  unfold parseTimeNumber.
  destruct (Atoi_total s) as [(n & -> & _)|(k & ->)]; [|done].
  by destruct ((59 <? n) || (n <? 0)).
Qed.

(** C9: when the first token is exactly [+], [++], [-] or [--], the seek
    builder returns [{playerid: 1, value: v}] with [v] = smallforward,
    bigforward, smallbackward, bigbackward respectively, whatever the other
    tokens are. *)
Theorem seek_symbolic_tokens :
  (∀ rest, seek_builder ("+" :: rest) = Ok (seek_symbol "smallforward")) ∧
  (∀ rest, seek_builder ("++" :: rest) = Ok (seek_symbol "bigforward")) ∧
  (∀ rest, seek_builder ("-" :: rest) = Ok (seek_symbol "smallbackward")) ∧
  (∀ rest, seek_builder ("--" :: rest) = Ok (seek_symbol "bigbackward")) ∧
  (∀ v, json_enc.MarshalMap (seek_symbol v)
        = JObject [("playerid", JInt 1); ("value", JString v)]).
Proof. repeat split; intros; by rewrite ?seek_symbolic. Qed.

Lemma seek_absolute_time (params : list string) (p0 tok : string) :
  head params = Some p0 → p0 ∉ symbolic_tokens → last params = Some tok →
  seek_builder params = seek_time_of (strings.Split tok ":").
Proof.
  intros Hhead Hsym Hlast.
  destruct params as [|q rest]; [done|]. injection Hhead as ->.
  rewrite seek_symbolic.
  assert (∀ t, t ∈ symbolic_tokens → String.eqb p0 t = false) as Hne.
  { intros t Ht. apply String.eqb_neq. by intros ->. }
  rewrite !Hne by (unfold symbolic_tokens; set_solver).
  rewrite (index_last _ _ Hlast). cbn [mbind result_bind]. unfold seek_time_of.
  destruct (strings.Split tok ":") as [|a [|b [|c [|d l]]]]; try reflexivity.
  - change (len [a; b; c] =? 3) with true. cbn iota.
    change (index [a; b; c] 0) with (Ok a). cbn [mbind result_bind].
    destruct (parseTimeNumber a); reflexivity.
  - assert ((len (a :: b :: c :: d :: l) =? 3) = false) as ->
      by (apply Z.eqb_neq; unfold len; cbn [length]; lia).
    cbn [mbind result_bind].
    assert ((len (a :: b :: c :: d :: l) =? 2) = false) as ->
      by (apply Z.eqb_neq; unfold len; cbn [length]; lia).
    reflexivity.
Qed.

(** C3: for a non-empty token list whose first token is none of [+], [++],
    [-], [--], the seek builder splits the last token on [:]; three pieces
    are hours, minutes, seconds, two pieces are minutes and seconds, any other
    number of pieces fails with the illegal-parameter message; on success
    the payload is [{playerid: 1, value: {hours, minutes, seconds,
    milliseconds}}] with milliseconds 0, so that [01:02:03] gives 1, 2, 3, 0;
    the empty token list fails with the not-enough-parameters message. *)
Theorem seek_time_tokens (params : list string) (p0 tok : string) :
  head params = Some p0 → p0 ∉ symbolic_tokens → last params = Some tok →
  seek_builder params = seek_time_of (strings.Split tok ":") ∧
  seek_builder [] = Err (errors.New not_enough_parameters) ∧
  seek_builder ["01:02:03"] = Ok (seek_time 1 2 3 0) ∧
  (∀ h m s ms, json_enc.MarshalMap (seek_time h m s ms) =
     JObject [("playerid", JInt 1);
              ("value", JObject [("hours", JInt h); ("milliseconds", JInt ms);
                                 ("minutes", JInt m); ("seconds", JInt s)])]) ∧
  strings.Contains illegal_parameter "Illegal parameter" = true ∧
  strings.Contains not_enough_parameters "Not enough parameters" = true.
Proof.
  intros Hhead Hsym Hlast.
  split; [by apply (seek_absolute_time params p0 tok)|].
  repeat split; reflexivity.
Qed.

Lemma seek_time_tokens_witness :
  seek_builder ["now"; "7:08"] = Ok (seek_time 0 7 8 0).
Proof.
  refine (proj1 (seek_time_tokens ["now"; "7:08"] "now" "7:08" eq_refl _ eq_refl)).
  unfold symbolic_tokens. intros H. refute_elem H.
Defined.

Lemma parseTimeNumber_ok number n :
  strconv.Atoi number = Ok n → 0 ≤ n ≤ 59 → parseTimeNumber number = Ok n.
Proof.
  intros HA Hn. unfold parseTimeNumber. rewrite HA.
  destruct (59 <? n) eqn:E1; [lia|]. destruct (n <? 0) eqn:E2; [lia|]. done.
Qed.

Lemma parseTimeNumber_range number n :
  strconv.Atoi number = Ok n → n < 0 ∨ 59 < n →
  parseTimeNumber number = Err (errors.New (time_range_message number)).
Proof.
  intros HA Hn. unfold parseTimeNumber. rewrite HA.
  destruct (59 <? n) eqn:E1; [done|]. destruct (n <? 0) eqn:E2; [done|]. lia.
Qed.

Lemma parseTimeNumber_syntax number e :
  strconv.Atoi number = Err e → parseTimeNumber number = Err e.
Proof. intros HA. unfold parseTimeNumber. by rewrite HA. Qed.

Lemma parseTimeNumber_inv number n :
  parseTimeNumber number = Ok n → strconv.Atoi number = Ok n ∧ 0 ≤ n ≤ 59.
Proof.
  unfold parseTimeNumber. destruct (strconv.Atoi number) as [m| |]; [|done..].
  destruct (59 <? m) eqn:E1; [done|]. destruct (m <? 0) eqn:E2; [done|].
  intros [= ->]. split; [done|lia].
Qed.

Lemma in_range_parse number : in_range number → ∃ n, parseTimeNumber number = Ok n.
Proof. intros (n & HA & Hn). exists n. by apply parseTimeNumber_ok. Qed.

Lemma parse_in_range number n : parseTimeNumber number = Ok n → in_range number.
Proof. intros H. exists n. by apply parseTimeNumber_inv. Qed.

Lemma prefix_refl (s : string) : String.prefix s s = true.
Proof. induction s as [|c s IH]; cbn; [done|]. by destruct (ascii_dec c c). Qed.

Lemma Contains_self (s : string) : strings.Contains s s = true.
Proof. destruct s; [done|]. cbn [strings.Contains]. by rewrite prefix_refl. Qed.

Lemma Contains_suffix (p s : string) : strings.Contains (p ++ s) s = true.
Proof.
  induction p as [|c p IH]; [apply Contains_self|].
  change (String c p ++ s) with (String c (p ++ s)).
  cbn [strings.Contains]. rewrite IH. apply orb_true_r.
Qed.

Lemma prefix_app (p s : string) : String.prefix p (p ++ s) = true.
Proof.
  induction p as [|c p IH]; [by destruct s|].
  change (String c p ++ s) with (String c (p ++ s)). cbn [String.prefix].
  by destruct (ascii_dec c c).
Qed.

Lemma Contains_prefix (p s : string) : strings.Contains (p ++ s) p = true.
Proof.
  pose proof (prefix_app p s) as H.
  destruct (p ++ s); cbn [strings.Contains]; by rewrite H.
Qed.

Lemma Contains_app_r (a b sub : string) :
  strings.Contains b sub = true → strings.Contains (a ++ b) sub = true.
Proof.
  intros H. induction a as [|c a IH]; [done|].
  change (String c a ++ b) with (String c (a ++ b)).
  cbn [strings.Contains]. rewrite IH. apply orb_true_r.
Qed.

Lemma seek_time_of_error (good rest : list string) (c : string) (e : error) :
  (length (good ++ c :: rest) = 2 ∨ length (good ++ c :: rest) = 3)%nat →
  Forall in_range good → parseTimeNumber c = Err e →
  seek_time_of (good ++ c :: rest) = Err e.
Proof.
  intros Hlen Hgood Hc. rewrite length_app in Hlen. cbn [length] in Hlen.
  destruct good as [|g1 [|g2 [|g3 good]]]; cbn [app length] in *; [| | |lia].
  - destruct rest as [|r1 [|r2 [|r3 rest]]]; cbn [length] in *; try lia;
      unfold seek_time_of; by rewrite Hc.
  - apply Forall_cons in Hgood as [(n1 & H1)%in_range_parse _].
    destruct rest as [|r1 [|r2 rest]]; cbn [length] in *; try lia;
      unfold seek_time_of; by rewrite H1, Hc.
  - apply Forall_cons in Hgood as [(n1 & H1)%in_range_parse Hgood].
    apply Forall_cons in Hgood as [(n2 & H2)%in_range_parse _].
    destruct rest as [|r1 rest]; cbn [length] in *; try lia.
    unfold seek_time_of. by rewrite H1, H2, Hc.
Qed.

Lemma seek_time_of_ok (parts : list string) (pm : gmap string value) :
  seek_time_of parts = Ok pm → Forall in_range parts.
Proof.
  unfold seek_time_of.
  destruct parts as [|a [|b [|c [|d l]]]]; try done.
  - destruct (parseTimeNumber a) eqn:Ha; [|done..].
    destruct (parseTimeNumber b) eqn:Hb; [|done..].
    intros _. repeat constructor; by eapply parse_in_range.
  - destruct (parseTimeNumber a) eqn:Ha; [|done..].
    destruct (parseTimeNumber b) eqn:Hb; [|done..].
    destruct (parseTimeNumber c) eqn:Hc; [|done..].
    intros _. repeat constructor; by eapply parse_in_range.
Qed.

(** The seek builder stays within the bounds of its slices. *)
Lemma seek_builder_no_panic (params : list string) (p : panic) :
  seek_builder params ≠ Panic p.
Proof.
  destruct params as [|p0 rest]; [discriminate|].
  destruct (decide (p0 ∈ symbolic_tokens)) as [Hin|Hout].
  - rewrite seek_symbolic. unfold symbolic_tokens in Hin.
    repeat (apply elem_of_cons in Hin as [->|Hin]; [discriminate|]).
    by apply elem_of_nil in Hin.
  - destruct (last (p0 :: rest)) as [tok|] eqn:Hlast.
    + rewrite (seek_absolute_time (p0 :: rest) p0 tok eq_refl Hout Hlast).
      unfold seek_time_of.
      destruct (strings.Split tok ":") as [|a [|b [|c [|d l]]]]; try discriminate.
      * destruct (parseTimeNumber a) eqn:Ha; [|discriminate|by apply parseTimeNumber_no_panic in Ha].
        destruct (parseTimeNumber b) eqn:Hb; [|discriminate|by apply parseTimeNumber_no_panic in Hb].
        discriminate.
      * destruct (parseTimeNumber a) eqn:Ha; [|discriminate|by apply parseTimeNumber_no_panic in Ha].
        destruct (parseTimeNumber b) eqn:Hb; [|discriminate|by apply parseTimeNumber_no_panic in Hb].
        destruct (parseTimeNumber c) eqn:Hc; [|discriminate|by apply parseTimeNumber_no_panic in Hc].
        discriminate.
    + by apply last_None in Hlast.
Qed.

(** The speed builder reads [params[0]] unguarded. *)
Example speed_without_token :
  createJsonCommand "speed" [] = Panic (IndexOutOfRange 0 0) ∧
  createJsonCommand "speed" ["2"] =
    Ok (JObject [("jsonrpc", JString "2.0"); ("method", JString "Player.Speed");
                 ("params", JObject [("playerid", JInt 1); ("speed", JString "2")]);
                 ("id", JInt 1)]).
Proof. split; reflexivity. Qed.

(** C4 (as amended): every time component the seek builder consumes, hours,
    minutes and seconds alike, has to be read by [strconv.Atoi] as an integer
    from 0 to 59.  The first component that is read but lies outside 0..59
    makes the builder fail with the message that names the raw string and
    the bounds 0 and 59; the first component that [strconv.Atoi] rejects
    makes the builder fail with [strconv]'s own error for that raw string;
    a successful build has all components within 0..59; [02:75] fails on
    75. *)
Theorem time_components_checked (params : list string) (p0 tok c : string)
    (good rest : list string) :
  head params = Some p0 → p0 ∉ symbolic_tokens → last params = Some tok →
  strings.Split tok ":" = (good ++ c :: rest)%list →
  (length (good ++ c :: rest) = 2 ∨ length (good ++ c :: rest) = 3)%nat →
  Forall in_range good →
  (∀ n, strconv.Atoi c = Ok n → n < 0 ∨ 59 < n →
     seek_builder params = Err (errors.New (time_range_message c)) ∧
     strings.Contains (time_range_message c) c = true ∧
     strings.Contains (time_range_message c) "between 0 and 59" = true) ∧
  (∀ e, strconv.Atoi c = Err e →
     seek_builder params = Err e ∧ ∃ k, e = NumError "Atoi" c k) ∧
  (∀ pm, seek_builder params = Ok pm → Forall in_range (good ++ c :: rest)) ∧
  seek_builder ["02:75"] = Err (errors.New (time_range_message "75")) ∧
  seek_builder ["60:00:00"] = Err (errors.New (time_range_message "60")).
Proof.
  intros Hhead Hsym Hlast Hsplit Hlen Hgood.
  rewrite (seek_absolute_time params p0 tok Hhead Hsym Hlast), Hsplit.
  split; [|split; [|split; [|split]]].
  - intros n HA Hn. split; [|split].
    + eapply seek_time_of_error; eauto using parseTimeNumber_range.
    + apply Contains_suffix.
    + change (time_range_message c)
        with ("A time-number needs to be " ++ ("between 0 and 59" ++ (", but was " ++ c))).
      apply Contains_app_r, Contains_prefix.
  - intros e HA. split.
    + eapply seek_time_of_error; eauto using parseTimeNumber_syntax.
    + destruct (Atoi_total c) as [(n & Hn & _)|(k & Hk)]; [congruence|].
      exists k. congruence.
  - intros pm. apply seek_time_of_ok.
  - reflexivity.
  - reflexivity.
Qed.

Lemma time_components_checked_witness :
  seek_builder ["02:75"] = Err (errors.New (time_range_message "75")) ∧
  strings.Contains (time_range_message "75") "75" = true ∧
  strings.Contains (time_range_message "75") "between 0 and 59" = true.
Proof.
  refine (proj1 (time_components_checked ["02:75"] "02:75" "02:75" "75" ["02"] []
                   eq_refl _ eq_refl eq_refl (or_introl eq_refl) _) 75 eq_refl _).
  - unfold symbolic_tokens. intros H. refute_elem H.
  - constructor; [|constructor]. exists 2. split; [reflexivity|]. split; discriminate.
  - right. reflexivity.
Defined.

(** C4 as stated fails: a component that is no number makes the builder
    fail with [strconv]'s error, whose text names the raw string but not the
    bounds. *)
Lemma non_numeric_component_message :
  seek_builder ["ab:10"] = Err (NumError "Atoi" "ab" ErrSyntax) ∧
  ErrorText (NumError "Atoi" "ab" ErrSyntax)
    = Some ("strconv.Atoi: parsing " ++ dquote ++ "ab" ++ dquote ++ ": invalid syntax") ∧
  strings.Contains
    ("strconv.Atoi: parsing " ++ dquote ++ "ab" ++ dquote ++ ": invalid syntax") "59" = false.
Proof. repeat split; reflexivity. Qed.

(** ** Repeat counts *)

Lemma directional_test (action : string) :
  (String.eqb action "down" || String.eqb action "up" ||
   String.eqb action "left" || String.eqb action "right")
  = bool_decide (action ∈ directional).
Proof.
  unfold directional.
  destruct (String.eqb_spec action "down") as [->|H1]; [done|].
  destruct (String.eqb_spec action "up") as [->|H2]; [done|].
  destruct (String.eqb_spec action "left") as [->|H3]; [done|].
  destruct (String.eqb_spec action "right") as [->|H4]; [done|].
  symmetry. apply bool_decide_eq_false. intros H.
  repeat (apply elem_of_cons in H as [?|H]; [done|]). by apply elem_of_nil in H.
Qed.

Lemma getRepeatCount_other (action : string) (params : list string) :
  action ∉ directional → getRepeatCount action params = Ok (1, params).
Proof.
  intros H. unfold getRepeatCount. rewrite directional_test.
  rewrite (bool_decide_eq_false_2 _ H). by rewrite andb_false_r.
Qed.

Lemma getRepeatCount_last (action : string) (init : list string) (tok : string) :
  action ∈ directional →
  getRepeatCount action (init ++ [tok]) =
    match strconv.Atoi tok with
    | Ok num => if num <? 1 then Ok (1, init ++ [tok])%list else Ok (num, init)
    | Err _ => Ok (1, init ++ [tok])%list
    | Panic p => Panic p
    end.
Proof.
  intros H. unfold getRepeatCount. rewrite directional_test.
  rewrite (bool_decide_eq_true_2 _ H).
  assert ((0 <? len (init ++ [tok])) = true) as ->.
  { apply Z.ltb_lt. unfold len. rewrite length_app. cbn. lia. }
  cbn [andb]. rewrite (index_last (init ++ [tok]) tok) by apply last_snoc.
  cbn [mbind result_bind]. by rewrite take_init.
Qed.

(** C5: for [up], [down], [left], [right] and a non-empty token list, a
    last token that [strconv.Atoi] reads as an integer >= 1 is taken off the
    list and is the repeat count, and the parameter builder runs on the
    shortened list; otherwise the count is 1 and the list is unchanged.
    For every other action the count is 1 and the list is unchanged. *)
Theorem repeat_count_resolution (action : string) (init : list string) (tok : string) :
  (action ∈ directional →
     (∀ n, strconv.Atoi tok = Ok n → 1 ≤ n →
        getRepeatCount action (init ++ [tok]) = Ok (n, init) ∧
        ∀ config w,
          ExecuteCommand config action (init ++ [tok]) w =
            match createJsonCommand action init with
            | Ok cmd => send_loop (Z.to_nat n) (Host config) (Port config) cmd (Ok ()) w
            | Err err => (Err err, w)
            | Panic p => (Panic p, w)
            end) ∧
     ((∀ n, strconv.Atoi tok = Ok n → n < 1) →
        getRepeatCount action (init ++ [tok]) = Ok (1, init ++ [tok])%list) ∧
     getRepeatCount action [] = Ok (1, [])) ∧
  (action ∉ directional →
     ∀ params, getRepeatCount action params = Ok (1, params)) ∧
  getRepeatCount "left" ["5"] = Ok (5, []) ∧
  getRepeatCount "left" ["notanumber"] = Ok (1, ["notanumber"]).
Proof.
  split; [|split; [|split; reflexivity]].
  - intros Hdir. split; [|split].
    + intros n HA Hn.
      assert (getRepeatCount action (init ++ [tok]) = Ok (n, init)) as Hcount.
      { rewrite getRepeatCount_last, HA by done.
        destruct (n <? 1) eqn:E; [lia|done]. }
      split; [done|]. intros config w. unfold ExecuteCommand. by rewrite Hcount.
    + intros Hno. rewrite getRepeatCount_last by done.
      destruct (strconv.Atoi tok) as [n| |p] eqn:HA; [| done |by apply Atoi_no_panic in HA].
      specialize (Hno n eq_refl). destruct (n <? 1) eqn:E; [done|lia].
    + unfold getRepeatCount. rewrite directional_test. reflexivity.
  - intros Hother params. by apply getRepeatCount_other.
Qed.

Lemma repeat_count_resolution_witness :
  getRepeatCount "left" (["x"] ++ ["5"]) = Ok (5, ["x"]).
Proof.
  refine (proj1 (proj1 (proj1 (repeat_count_resolution "left" ["x"] "5") _) 5 eq_refl _)).
  - unfold directional. do 2 apply list_elem_of_further. apply list_elem_of_here.
  - discriminate.
Defined.

(** ** The registry *)

Lemma registered_names_keys : CommandEntries.*1 = registered_names.
Proof. reflexivity. Qed.

Lemma MethodTable_names : MethodTable.*1 = registered_names.
Proof. reflexivity. Qed.

Lemma CommandMap_miss (name : string) :
  name ∉ registered_names → CommandMap !! name = None.
Proof.
  intros H. apply not_elem_of_list_to_map_1. by rewrite registered_names_keys.
Qed.

Lemma CommandMap_hit (name : string) :
  name ∈ registered_names → ∃ cmd, CommandMap !! name = Some cmd ∧ CliName cmd = name.
Proof.
  unfold registered_names. intros H.
  repeat (apply elem_of_cons in H as [->|H]; [eexists; split; reflexivity|]).
  by apply elem_of_nil in H.
Qed.

Lemma CommandMap_method (name method : string) :
  (name, method) ∈ MethodTable →
  ∃ cmd, CommandMap !! name = Some cmd ∧ KodiName cmd = method ∧ CliName cmd = name.
Proof.
  unfold MethodTable. intros H.
  repeat (apply elem_of_cons in H as [[= -> ->]|H];
          [eexists; split; [reflexivity|split; reflexivity]|]).
  by apply elem_of_nil in H.
Qed.

Lemma directional_registered (action : string) :
  action ∈ directional → action ∈ registered_names.
Proof.
  unfold directional. intros H.
  repeat (apply elem_of_cons in H as [->|H];
          [unfold registered_names; repeat (first [apply list_elem_of_here | apply list_elem_of_further])|]).
  by apply elem_of_nil in H.
Qed.

Lemma createJsonCommand_unknown (name : string) (params : list string) :
  name ∉ registered_names → createJsonCommand name params = Err (unknown_command name).
Proof. intros H. unfold createJsonCommand. by rewrite (CommandMap_miss name H). Qed.

Lemma ExecuteCommand_unknown (config : Configuration) (name : string)
    (params : list string) (w : world) :
  name ∉ registered_names →
  ExecuteCommand config name params w = (Err (unknown_command name), w).
Proof.
  intros H. unfold ExecuteCommand.
  rewrite getRepeatCount_other by (intros Hd; by apply H, directional_registered).
  by rewrite createJsonCommand_unknown.
Qed.

(** C6: every CLI name of the table of §4.1 is a key of the registry and
    its descriptor carries the remote method of the table; for every other
    name [createJsonCommand] fails with the unknown-command message, which
    contains the name, and [ExecuteCommand] returns that error with the
    world untouched: nothing is built, nothing is posted. *)
Theorem registry_lookup (name : string) :
  (∀ method, (name, method) ∈ MethodTable →
     ∃ cmd, CommandMap !! name = Some cmd ∧ KodiName cmd = method ∧ CliName cmd = name) ∧
  (name ∉ MethodTable.*1 →
     ∀ params config w,
       createJsonCommand name params = Err (unknown_command name) ∧
       ExecuteCommand config name params w = (Err (unknown_command name), w) ∧
       ErrorText (unknown_command name) = Some ("The Command " ++ name ++ " is unknown.") ∧
       strings.Contains ("The Command " ++ name ++ " is unknown.") name = true).
Proof.
  split; [apply CommandMap_method|].
  rewrite MethodTable_names. intros H params config w.
  split; [by apply createJsonCommand_unknown|].
  split; [by apply ExecuteCommand_unknown|].
  split; [reflexivity|]. apply Contains_app_r, Contains_prefix.
Qed.

Lemma registry_lookup_witness :
  (∃ cmd, CommandMap !! "mute" = Some cmd ∧ KodiName cmd = "Application.SetMute"
          ∧ CliName cmd = "mute") ∧
  createJsonCommand "volume" ["3"] = Err (unknown_command "volume").
Proof.
  split.
  - refine (proj1 (registry_lookup "mute") "Application.SetMute" _).
    unfold MethodTable. do 3 apply list_elem_of_further. apply list_elem_of_here.
  - refine (proj1 (proj2 (registry_lookup "volume") _ ["3"]
                     {| Host := "localhost"; Port := "8080" |}
                     {| url_error := λ _, None; script := []; posted := [] |})).
    apply (bool_decide_unpack _). vm_compute. exact I.
Defined.

(** C10: [GetCommandForName] faults on the nil pointer for every string
    that is no key of [CommandMap]; it returns, and then with [true], exactly
    for the 18 registered names. *)
Theorem GetCommandForName_faults (cmd : string) :
  (cmd ∉ registered_names → GetCommandForName cmd = Panic NilDereference) ∧
  (cmd ∈ registered_names →
     ∃ command, GetCommandForName cmd = Ok (command, true) ∧ CliName command = cmd) ∧
  (∀ command, GetCommandForName cmd ≠ Ok (command, false)) ∧
  (cmd ∈ registered_names ↔ is_Some (CommandMap !! cmd)) ∧
  length registered_names = 18%nat ∧ NoDup registered_names.
Proof.
  unfold GetCommandForName. split; [|split; [|split; [|split; [|split]]]].
  - intros H. by rewrite (CommandMap_miss cmd H).
  - intros H. destruct (CommandMap_hit cmd H) as (c & -> & Hc). eauto.
  - intros c. by destruct (CommandMap !! cmd).
  - split.
    + intros H. destruct (CommandMap_hit cmd H) as (c & -> & Hc). eauto.
    + intros [c Hc]. destruct (decide (cmd ∈ registered_names)) as [|Hn]; [done|].
      by rewrite (CommandMap_miss cmd Hn) in Hc.
  - reflexivity.
  - apply (bool_decide_unpack _). vm_compute. exact I.
Qed.

Lemma GetCommandForName_faults_witness :
  GetCommandForName "help" = Panic NilDereference.
Proof.
  refine (proj1 (GetCommandForName_faults "help") _).
  apply (bool_decide_unpack _). vm_compute. exact I.
Defined.

(** ** The request envelope *)

Lemma MarshalCommandRequest_empty (method : string) :
  MarshalCommandRequest (SetValues zeroCommandRequest method ∅) =
    JObject [("jsonrpc", JString "2.0"); ("method", JString method); ("id", JInt 1)].
Proof. reflexivity. Qed.

Lemma MarshalCommandRequest_params (method : string) (pm : gmap string value) :
  pm ≠ ∅ →
  MarshalCommandRequest (SetValues zeroCommandRequest method pm) =
    JObject [("jsonrpc", JString "2.0"); ("method", JString method);
             ("params", json_enc.MarshalMap pm); ("id", JInt 1)].
Proof.
  intros H. unfold MarshalCommandRequest, SetValues. cbn [Params JSONrpc Method ID].
  destruct (Z.of_nat (size pm) =? 0) eqn:E; [|reflexivity].
  apply Z.eqb_eq in E. destruct H. apply map_size_empty_iff. lia.
Qed.

Lemma createJsonCommand_inv (action : string) (params : list string) (doc : json) :
  createJsonCommand action params = Ok doc →
  ∃ cmd pm, CommandMap !! action = Some cmd ∧ CreateParameterMap cmd params = Ok pm ∧
            doc = MarshalCommandRequest (SetValues zeroCommandRequest (KodiName cmd) pm).
Proof.
  unfold createJsonCommand. destruct (CommandMap !! action) as [cmd|]; [|done].
  destruct (CreateParameterMap cmd params) as [pm| |] eqn:E; [|done..].
  intros [= <-]. eauto.
Qed.

(** C7: the document [createJsonCommand] serializes has the member
    [jsonrpc] with the string [2.0], the member [id] with the number 1 and the
    member [method] with the remote method of the descriptor; when the
    parameter builder returned an empty payload there is no [params] member
    at all, else [params] holds the payload. *)
Theorem request_envelope (action : string) (params : list string) (doc : json) :
  createJsonCommand action params = Ok doc →
  ∃ cmd pm members,
    CommandMap !! action = Some cmd ∧ CreateParameterMap cmd params = Ok pm ∧
    doc = JObject members ∧
    json_enc.member "jsonrpc" members = Some (JString "2.0") ∧
    json_enc.member "id" members = Some (JInt 1) ∧
    json_enc.member "method" members = Some (JString (KodiName cmd)) ∧
    (pm = ∅ → json_enc.member "params" members = None ∧
              members.*1 = ["jsonrpc"; "method"; "id"]) ∧
    (pm ≠ ∅ → json_enc.member "params" members = Some (json_enc.MarshalMap pm) ∧
              members.*1 = ["jsonrpc"; "method"; "params"; "id"]).
Proof.
  intros (cmd & pm & Hcmd & Hpm & ->)%createJsonCommand_inv.
  exists cmd, pm. destruct (decide (size pm = 0%nat)) as [Hz|Hnz].
  - apply map_size_empty_iff in Hz as ->. rewrite MarshalCommandRequest_empty.
    eexists. repeat split; try reflexivity; done.
  - assert (pm ≠ ∅) as Hne by (by rewrite <- map_size_empty_iff).
    rewrite MarshalCommandRequest_params by done.
    eexists. repeat split; try reflexivity; done.
Qed.

Lemma request_envelope_witness :
  ∃ cmd pm members,
    CommandMap !! "home" = Some cmd ∧ CreateParameterMap cmd ["x"] = Ok pm ∧
    JObject [("jsonrpc", JString "2.0"); ("method", JString "Input.Home"); ("id", JInt 1)]
      = JObject members ∧
    json_enc.member "jsonrpc" members = Some (JString "2.0") ∧
    json_enc.member "id" members = Some (JInt 1) ∧
    json_enc.member "method" members = Some (JString (KodiName cmd)) ∧
    (pm = ∅ → json_enc.member "params" members = None ∧
              members.*1 = ["jsonrpc"; "method"; "id"]) ∧
    (pm ≠ ∅ → json_enc.member "params" members = Some (json_enc.MarshalMap pm) ∧
              members.*1 = ["jsonrpc"; "method"; "params"; "id"]).
Proof.
  exact (request_envelope "home" ["x"]
           (JObject [("jsonrpc", JString "2.0"); ("method", JString "Input.Home");
                     ("id", JInt 1)]) eq_refl).
Defined.

(** ** Remote errors *)

Lemma append_nil_r (s : string) : s ++ "" = s.
Proof. induction s as [|c s IH]; [done|]. change (String c s ++ "") with (String c (s ++ "")). by rewrite IH. Qed.

Lemma append_assoc (a b c : string) : (a ++ b) ++ c = a ++ (b ++ c).
Proof.
  induction a as [|x a IH]; [done|].
  change ((String x a ++ b) ++ c) with (String x ((a ++ b) ++ c)). by rewrite IH.
Qed.

Lemma length_append (a b : string) :
  String.length (a ++ b) = (String.length a + String.length b)%nat.
Proof.
  induction a as [|x a IH]; [done|].
  change (String x a ++ b) with (String x (a ++ b)). cbn [String.length]. by rewrite IH.
Qed.

Lemma createJsonError_composed (r : ErrorResponse) :
  createJsonError r = errors.New (composed_message r).
Proof.
  unfold createJsonError, composed_message, segment. f_equal.
  cbn [String.concat].
  destruct (String.eqb (Data_Message _) ""), (String.eqb (Stack_Message _) ""),
    (String.eqb (Stack_Name _) ""), (String.eqb (Stack_Type _) "");
    cbn [negb];
    change (append "") with (λ s : string, s); cbn beta;
    rewrite ?append_assoc, ?append_nil_r; reflexivity.
Qed.

Lemma createJsonError_no_stack_message :
  createJsonError (invalid_params "") =
    errors.New ("Invalid params parameter " ++ dquote ++ "title" ++ dquote
                ++ " of type " ++ dquote ++ "string" ++ dquote).
Proof. reflexivity. Qed.

Lemma createJsonError_stack_message (c : ascii) (sm : string) :
  createJsonError (invalid_params (String c sm)) =
    errors.New ("Invalid params " ++ String c sm ++ " regarding parameter " ++ dquote
                ++ "title" ++ dquote ++ " of type " ++ dquote ++ "string" ++ dquote).
Proof.
  rewrite createJsonError_composed. unfold composed_message, segment, invalid_params.
  cbn [Resp_Error Error_Data Data_Message Data_Stack Stack_Name Stack_Type Stack_Message
       String.eqb String.concat].
  f_equal. change (append "") with (λ s : string, s). cbn beta.
  by rewrite !append_assoc.
Qed.

(** Whatever the stack message is, the message is not the one §8 expects:
    [regarding] only comes after a non-empty stack message. *)
Lemma createJsonError_never_expected (sm : string) :
  createJsonError (invalid_params sm) ≠ errors.New expected_invalid_params.
Proof.
  destruct sm as [|c sm]; [discriminate|].
  rewrite createJsonError_stack_message. intros [= Hc H].
  apply (f_equal String.length) in H. rewrite length_append in H.
  match type of H with
  | (_ + ?a)%nat = ?b =>
      let a' := eval vm_compute in a in
      let b' := eval vm_compute in b in
      change a with a' in H; change b with b' in H
  end.
  lia.
Qed.

(** C2 (as amended): the message of a remote error is the concatenation,
    in order, of the data message followed by a space, the stack message
    followed by [ regarding ], [parameter] with the quoted name followed by a
    space, and [of type] with the quoted type, each left out when its field
    is empty; data message [Invalid params], name [title], type [string]
    compose [Invalid params parameter "title" of type "string"] when the
    stack message is empty, and [Invalid params M regarding parameter "title"
    of type "string"] when it is a non-empty M. *)
Theorem remote_error_message (r : ErrorResponse) :
  createJsonError r = errors.New (composed_message r) ∧
  createJsonError (invalid_params "") =
    errors.New ("Invalid params parameter " ++ dquote ++ "title" ++ dquote
                ++ " of type " ++ dquote ++ "string" ++ dquote) ∧
  (∀ c sm, createJsonError (invalid_params (String c sm)) =
    errors.New ("Invalid params " ++ String c sm ++ " regarding parameter " ++ dquote
                ++ "title" ++ dquote ++ " of type " ++ dquote ++ "string" ++ dquote)) ∧
  json_dec.Unmarshal invalid_params_body zeroErrorResponse = (invalid_params "", None).
Proof.
  split; [apply createJsonError_composed|].
  split; [reflexivity|]. split; [apply createJsonError_stack_message|reflexivity].
Qed.

(** C2 as stated fails on its own example: for the response body of §8,
    [sendRequest] reports [Invalid params parameter "title" of type "string"],
    which is not the message §8 expects. *)
Lemma invalid_params_not_expected :
  json_dec.Unmarshal invalid_params_body zeroErrorResponse = (invalid_params "", None) ∧
  (sendRequest "localhost" "8080" JNull
     {| url_error := λ _, None; script := [Answers (Document invalid_params_body)];
        posted := [] |}).1
    = Err (errors.New ("Invalid params parameter " ++ dquote ++ "title" ++ dquote
                       ++ " of type " ++ dquote ++ "string" ++ dquote)) ∧
  createJsonError (invalid_params "") ≠ errors.New expected_invalid_params.
Proof. split; [reflexivity|]. split; [reflexivity | discriminate]. Qed.

(** ** Responses and the dispatcher *)

Lemma ErrorResponse_field_other (key : string) (v : json) (r : ErrorResponse)
    (saved : option error) :
  key ≠ "error" → Resp_Error (json_dec.ErrorResponse_field key v r saved).1 = Resp_Error r.
Proof.
  intros H. unfold json_dec.ErrorResponse_field.
  destruct (String.eqb_spec key "error") as [->|_]; [done|].
  destruct (String.eqb key "id"); [done|]. by destruct (String.eqb key "jsonrpc").
Qed.

Lemma fold_fields_keep_error (members : list (string * json)) (st : ErrorResponse * option error) :
  Forall (λ kv, json_dec.foldKey kv.1 ≠ "error") members →
  Resp_Error
    (fold_left (λ st kv, json_dec.ErrorResponse_field (json_dec.foldKey kv.1) kv.2 st.1 st.2)
               members st).1
  = Resp_Error st.1.
Proof.
  intros H. revert st. induction H as [|kv members Hkv _ IH]; intros st; [done|].
  cbn [fold_left]. rewrite IH. by apply ErrorResponse_field_other.
Qed.

Lemma Unmarshal_lacks_error (doc : json) (into : ErrorResponse) :
  lacks_error_member doc →
  Resp_Error (json_dec.Unmarshal doc into).1 = Resp_Error into.
Proof.
  intros H. unfold json_dec.Unmarshal, json_dec.storeStruct.
  destruct doc; try done. by apply fold_fields_keep_error.
Qed.

Lemma sendRequest_answer (host port : string) (js doc : json) (w : world) (rest : list reply) :
  url_error w (request_url host port) = None →
  script w = Answers (Document doc) :: rest →
  sendRequest host port js w =
    (match json_dec.Unmarshal doc zeroErrorResponse with
     | (errorResponse, None) =>
         if Error_Code (Resp_Error errorResponse) =? 0 then Ok ()
         else Err (createJsonError errorResponse)
     | (_, Some err) => Err err
     end,
     after_reply w (json_post host port js)).
Proof.
  intros Hurl Hscript. unfold sendRequest. fold (request_url host port).
  rewrite Hurl. fold (json_post host port js). unfold client_Do, after_reply.
  rewrite Hscript. cbn [tail].
  destruct (json_dec.Unmarshal doc zeroErrorResponse) as [resp [err|]]; [done|].
  by destruct (Error_Code (Resp_Error resp) =? 0).
Qed.

(** C8: a response that decodes with [error.code] 0, or that decodes and
    has no [error] member at all, is a success: [sendRequest] returns the
    nil error, and the loop of [ExecuteCommand] goes on with its remaining
    repeats from there. *)
Theorem no_error_is_success (host port : string) (js doc : json) (w : world)
    (rest : list reply) (resp : ErrorResponse) :
  url_error w (request_url host port) = None →
  script w = Answers (Document doc) :: rest →
  json_dec.Unmarshal doc zeroErrorResponse = (resp, None) →
  Error_Code (Resp_Error resp) = 0 ∨ lacks_error_member doc →
  sendRequest host port js w = (Ok (), after_reply w (json_post host port js)) ∧
  ∀ remaining err,
    send_loop (S remaining) host port js err w =
    send_loop remaining host port js (Ok ()) (after_reply w (json_post host port js)).
Proof.
  intros Hurl Hscript Hdec Hcode.
  assert (Error_Code (Resp_Error resp) = 0) as Hzero.
  { destruct Hcode as [|Hlack]; [done|].
    pose proof (Unmarshal_lacks_error doc zeroErrorResponse Hlack) as H.
    rewrite Hdec in H. cbn in H. by rewrite H. }
  assert (sendRequest host port js w = (Ok (), after_reply w (json_post host port js))) as Hsend.
  { rewrite (sendRequest_answer host port js doc w rest Hurl Hscript), Hdec, Hzero. done. }
  split; [done|]. intros remaining err. cbn [send_loop]. by rewrite Hsend.
Qed.

Lemma no_error_is_success_witness :
  sendRequest "localhost" "8080" JNull
    {| url_error := λ _, None; script := [Answers (Document no_error_body)]; posted := [] |}
  = (Ok (), {| url_error := λ _, None; script := [];
               posted := [json_post "localhost" "8080" JNull] |}) ∧
  sendRequest "localhost" "8080" JNull
    {| url_error := λ _, None; script := [Answers (Document code_zero_body)]; posted := [] |}
  = (Ok (), {| url_error := λ _, None; script := [];
               posted := [json_post "localhost" "8080" JNull] |}).
Proof.
  split.
  - refine (proj1 (no_error_is_success "localhost" "8080" JNull no_error_body
                     {| url_error := λ _, None; script := [Answers (Document no_error_body)];
                        posted := [] |} []
                     {| Resp_Error := zeroError; Resp_ID := 1; Resp_JsonRPC := "2.0" |}
                     eq_refl eq_refl eq_refl (or_intror _))).
    cbn. repeat constructor; cbn; discriminate.
  - exact (proj1 (no_error_is_success "localhost" "8080" JNull code_zero_body
                     {| url_error := λ _, None; script := [Answers (Document code_zero_body)];
                        posted := [] |} []
                     {| Resp_Error := zeroError; Resp_ID := 1; Resp_JsonRPC := "2.0" |}
                     eq_refl eq_refl eq_refl (or_introl eq_refl))).
Defined.

(** The loop never stops early: after [n] repeats it makes one more
    request, and what it returns is the outcome of that last request. *)
Lemma send_loop_last (n : nat) (host port : string) (cmd : json)
    (err : result unit) (w : world) :
  send_loop (S n) host port cmd err w =
    sendRequest host port cmd (send_loop n host port cmd err w).2.
Proof.
  revert err w. induction n as [|n IH]; intros err w.
  - cbn. by destruct (sendRequest host port cmd w).
  - change (send_loop (S (S n)) host port cmd err w)
      with (let '(err, w) := sendRequest host port cmd w in
            send_loop (S n) host port cmd err w).
    destruct (sendRequest host port cmd w) as [err1 w1] eqn:E.
    rewrite IH. cbn [send_loop]. by rewrite E.
Qed.

Lemma sendRequest_posts (host port : string) (js : json) (w : world) :
  url_error w (request_url host port) = None →
  let w' := (sendRequest host port js w).2 in
  posted w' = json_post host port js :: posted w ∧ url_error w' = url_error w.
Proof.
  intros Hurl. unfold sendRequest. fold (request_url host port). rewrite Hurl.
  fold (json_post host port js). unfold client_Do.
  destruct (script w) as [|[e|e|[e|doc]] rest]; cbn; try done.
  destruct (json_dec.Unmarshal doc zeroErrorResponse) as [resp [err|]]; [done|].
  by destruct (negb _).
Qed.

(** With an address [http.NewRequest] accepts, [n] repeats post [n]
    requests, whatever the responses are. *)
Lemma send_loop_posts (n : nat) (host port : string) (cmd : json)
    (err : result unit) (w : world) :
  url_error w (request_url host port) = None →
  let w' := (send_loop n host port cmd err w).2 in
  posted w' = (replicate n (json_post host port cmd) ++ posted w)%list ∧
  url_error w' = url_error w.
Proof.
  revert err w. induction n as [|n IH]; intros err w Hurl; [done|].
  rewrite send_loop_last. destruct (IH err w Hurl) as [Hp Hu].
  destruct (sendRequest_posts host port cmd (send_loop n host port cmd err w).2) as [Hp' Hu'].
  { by rewrite Hu. }
  cbn zeta in *. rewrite Hp', Hu', Hp, Hu. done.
Qed.

Lemma sendRequest_url_error (host port : string) (js : json) (w : world) (e : error) :
  url_error w (request_url host port) = Some e → sendRequest host port js w = (Err e, w).
Proof. intros H. unfold sendRequest. fold (request_url host port). by rewrite H. Qed.

Lemma send_loop_url_error (n : nat) (host port : string) (cmd : json)
    (err : result unit) (w : world) (e : error) :
  url_error w (request_url host port) = Some e →
  (send_loop n host port cmd err w).2 = w.
Proof.
  intros H. revert err. induction n as [|n IH]; intros err; [done|].
  cbn [send_loop]. rewrite (sendRequest_url_error host port cmd w e H). apply IH.
Qed.

(** Every request a run of [ExecuteCommand] posts is the POST of the one
    document [createJsonCommand] made from the tokens [getRepeatCount] left. *)
Lemma ExecuteCommand_posted (config : Configuration) (action : string)
    (params : list string) (w : world) (request : Request) :
  request ∈ posted (ExecuteCommand config action params w).2 →
  request ∈ posted w ∨
  ∃ n tokens doc,
    getRepeatCount action params = Ok (n, tokens) ∧
    createJsonCommand action tokens = Ok doc ∧
    request = json_post (Host config) (Port config) doc.
Proof.
  unfold ExecuteCommand.
  destruct (getRepeatCount action params) as [[n tokens]| |]; [|by left..].
  destruct (createJsonCommand action tokens) as [doc| |] eqn:Hdoc; [|by left..].
  destruct (url_error w (request_url (Host config) (Port config))) as [e|] eqn:Hurl.
  - rewrite (send_loop_url_error _ _ _ _ _ _ e Hurl). by left.
  - destruct (send_loop_posts (Z.to_nat n) (Host config) (Port config) doc (Ok ()) w Hurl)
      as [-> _].
    intros [Hin|Hin]%elem_of_app; [right|by left].
    apply elem_of_replicate in Hin as [-> _]. by exists n, tokens, doc.
Qed.

(** C1 fails on the code: with repeat count 2, a first response carrying
    error code 402 and a second response without error, [ExecuteCommand]
    posts both requests and returns the nil error; the error of the first
    repeat, which [sendRequest] did return, is overwritten. *)
Theorem error_of_earlier_repeat_is_lost :
  getRepeatCount "left" ["2"] = Ok (2, []) ∧
  (sendRequest (Host localhost) (Port localhost)
     (JObject [("jsonrpc", JString "2.0"); ("method", JString "Input.Left"); ("id", JInt 1)])
     error_then_success).1
    = Err (createJsonError (invalid_params "")) ∧
  (ExecuteCommand localhost "left" ["2"] error_then_success).1 = Ok () ∧
  length (posted (ExecuteCommand localhost "left" ["2"] error_then_success).2) = 2%nat ∧
  script (ExecuteCommand localhost "left" ["2"] error_then_success).2 = [].
Proof. repeat split; reflexivity. Qed.

(** * Further properties of the dispatcher *)

Lemma registered_names_NoDup : NoDup registered_names.
Proof. apply (bool_decide_unpack _). vm_compute. exact I. Qed.

Lemma CommandMap_lookup (name : string) (cmd : Command) :
  CommandMap !! name = Some cmd ↔ (name, cmd) ∈ CommandEntries.
Proof.
  unfold CommandMap. split.
  - apply elem_of_list_to_map_2.
  - apply elem_of_list_to_map_1. rewrite registered_names_keys.
    apply registered_names_NoDup.
Qed.

Lemma sendRequest_outcome (host port : string) (js : json) (w : world) :
  url_error w (request_url host port) = None →
  sendRequest host port js w =
    (reply_outcome (next_reply w), after_reply w (json_post host port js)).
Proof.
  intros Hurl. unfold sendRequest. fold (request_url host port). rewrite Hurl.
  fold (json_post host port js). unfold client_Do, after_reply, next_reply.
  destruct (script w) as [|[e|e|[e|doc]] rest];
    cbn -[json_dec.Unmarshal createJsonError]; try done.
  destruct (json_dec.Unmarshal doc zeroErrorResponse) as [resp [err|]]; [done|].
  by destruct (Error_Code (Resp_Error resp) =? 0).
Qed.

Lemma sendRequest_no_panic (host port : string) (js : json) (w : world) (p : panic) :
  (sendRequest host port js w).1 ≠ Panic p.
Proof.
  unfold sendRequest. destruct (url_error w _); [done|].
  unfold client_Do. destruct (script w) as [|[e|e|[e|doc]] rest]; cbn; try done.
  destruct (json_dec.Unmarshal doc zeroErrorResponse) as [resp [err|]]; [done|].
  by destruct (negb _).
Qed.

Lemma send_loop_no_panic (n : nat) (host port : string) (cmd : json)
    (err : result unit) (w : world) (p : panic) :
  err ≠ Panic p → (send_loop n host port cmd err w).1 ≠ Panic p.
Proof.
  revert err w. induction n as [|n IH]; intros err w Herr; [done|].
  cbn [send_loop]. pose proof (sendRequest_no_panic host port cmd w p) as Hs.
  destruct (sendRequest host port cmd w) as [err1 w1]. by apply IH.
Qed.

Lemma tail_of_drop {A} (n : nat) (l : list A) : tail (drop n l) = drop (S n) l.
Proof.
  revert l. induction n as [|n IH]; intros [|x l]; cbn; auto.
Qed.

Lemma after_reply_replies (n : nat) (w : world) (request : Request) :
  after_reply (after_replies n w request) request = after_replies (S n) w request.
Proof.
  unfold after_reply, after_replies. cbn [url_error script posted].
  by rewrite tail_of_drop.
Qed.

Lemma send_loop_outcome (n : nat) (host port : string) (cmd : json)
    (err : result unit) (w : world) :
  url_error w (request_url host port) = None →
  send_loop (S n) host port cmd err w =
    (reply_outcome (default (DoFails (externalError "no reply")) (script w !! n)),
     after_replies (S n) w (json_post host port cmd)).
Proof.
  intros Hurl.
  assert (∀ k err, (send_loop k host port cmd err w).2
                   = after_replies k w (json_post host port cmd)) as Hworld.
  { induction k as [|k IH]; intros err0.
    - by destruct w.
    - rewrite send_loop_last, sendRequest_outcome; rewrite IH; [|done].
      apply after_reply_replies. }
  rewrite send_loop_last, Hworld, sendRequest_outcome by done.
  rewrite after_reply_replies. f_equal. f_equal. unfold next_reply, after_replies.
  cbn [script]. by rewrite head_lookup, lookup_drop, Nat.add_0_r.
Qed.

Lemma getRepeatCount_cases (action : string) (params : list string) :
  getRepeatCount action params = Ok (1, params) ∨
  ∃ tokens tok n,
    params = (tokens ++ [tok])%list ∧ action ∈ directional ∧
    strconv.Atoi tok = Ok n ∧ 1 ≤ n ≤ strconv.maxInt ∧
    getRepeatCount action params = Ok (n, tokens).
Proof.
  destruct (decide (action ∈ directional)) as [Hdir|Hother];
    [|left; by apply getRepeatCount_other].
  destruct params as [|tok tokens _] using rev_ind.
  - left. unfold getRepeatCount. by rewrite directional_test.
  - rewrite getRepeatCount_last by done.
    destruct (Atoi_total tok) as [(n & Hn & Hrange)|(k & Hk)].
    + rewrite Hn. destruct (n <? 1) eqn:E; [by left|].
      right. exists tokens, tok, n. repeat split; try done; lia.
    + rewrite Hk. by left.
Qed.

Lemma send_loop_rejected (n : nat) (host port : string) (cmd : json)
    (err : result unit) (w : world) (e : error) :
  url_error w (request_url host port) = Some e →
  send_loop (S n) host port cmd err w = (Err e, w).
Proof.
  intros Hurl. rewrite send_loop_last, (send_loop_url_error _ _ _ _ _ _ e Hurl).
  by apply sendRequest_url_error.
Qed.

(** X1: for an action and tokens that yield a request document, and an
    address [http.NewRequest] accepts, [ExecuteCommand] posts the same
    request [repeatCount] times whatever the replies are, consumes that many
    replies, and returns what the last of these replies alone gives. *)
Theorem ExecuteCommand_posts_every_repeat (config : Configuration) (action : string)
    (params tokens : list string) (n : Z) (doc : json) (w : world) :
  getRepeatCount action params = Ok (n, tokens) →
  createJsonCommand action tokens = Ok doc →
  url_error w (request_url (Host config) (Port config)) = None →
  1 ≤ n ∧
  ExecuteCommand config action params w =
    (reply_outcome (default (DoFails (externalError "no reply"))
                            (script w !! Nat.pred (Z.to_nat n))),
     after_replies (Z.to_nat n) w (json_post (Host config) (Port config) doc)).
Proof.
  intros Hcount Hdoc Hurl.
  assert (1 ≤ n) as Hn.
  { destruct (getRepeatCount_cases action params) as [H|(t & k & m & _ & _ & _ & Hm & H)];
      rewrite Hcount in H; injection H as -> ->; lia. }
  split; [done|]. unfold ExecuteCommand. rewrite Hcount, Hdoc.
  destruct (Z.to_nat n) as [|k] eqn:Hk; [lia|]. by apply send_loop_outcome.
Qed.

Lemma ExecuteCommand_posts_every_repeat_witness :
  ExecuteCommand localhost "left" ["2"] error_then_success =
    (Ok (),
     after_replies 2 error_then_success
       (json_post "localhost" "8080"
          (JObject [("jsonrpc", JString "2.0"); ("method", JString "Input.Left");
                    ("id", JInt 1)]))).
Proof.
  exact (proj2 (ExecuteCommand_posts_every_repeat localhost "left" ["2"] [] 2
                  (JObject [("jsonrpc", JString "2.0"); ("method", JString "Input.Left");
                            ("id", JInt 1)])
                  error_then_success eq_refl eq_refl eq_refl)).
Defined.

(** X2: when [http.NewRequest] rejects the address, [ExecuteCommand]
    returns that error, posts nothing and consumes no reply, for any repeat
    count. *)
Theorem ExecuteCommand_rejected_address (config : Configuration) (action : string)
    (params tokens : list string) (n : Z) (doc : json) (w : world) (e : error) :
  getRepeatCount action params = Ok (n, tokens) →
  createJsonCommand action tokens = Ok doc →
  url_error w (request_url (Host config) (Port config)) = Some e →
  ExecuteCommand config action params w = (Err e, w).
Proof.
  intros Hcount Hdoc Hurl.
  assert (1 ≤ n) as Hn.
  { destruct (getRepeatCount_cases action params) as [H|(t & k & m & _ & _ & _ & Hm & H)];
      rewrite Hcount in H; injection H as -> ->; lia. }
  unfold ExecuteCommand. rewrite Hcount, Hdoc.
  destruct (Z.to_nat n) as [|k] eqn:Hk; [lia|]. by apply send_loop_rejected.
Qed.

Lemma ExecuteCommand_rejected_address_witness :
  ExecuteCommand {| Host := "my host"; Port := "8080" |} "up" ["3"]
    {| url_error := λ _, Some (externalError "invalid character in host name");
       script := [Answers (Document no_error_body)]; posted := [] |}
  = (Err (externalError "invalid character in host name"),
     {| url_error := λ _, Some (externalError "invalid character in host name");
        script := [Answers (Document no_error_body)]; posted := [] |}).
Proof.
  exact (ExecuteCommand_rejected_address {| Host := "my host"; Port := "8080" |} "up" ["3"] [] 3
           (JObject [("jsonrpc", JString "2.0"); ("method", JString "Input.Up");
                     ("id", JInt 1)])
           {| url_error := λ _, Some (externalError "invalid character in host name");
              script := [Answers (Document no_error_body)]; posted := [] |}
           (externalError "invalid character in host name") eq_refl eq_refl eq_refl).
Defined.

(** X3: [getRepeatCount] never fails and never faults; the count it
    returns is at least 1 and fits an [int], and the tokens it leaves are
    the tokens it got, or these without their last one. *)
Theorem repeat_count_invariant (action : string) (params : list string) :
  ∃ n tokens,
    getRepeatCount action params = Ok (n, tokens) ∧ 1 ≤ n ≤ strconv.maxInt ∧
    (tokens = params ∨ ∃ tok, params = (tokens ++ [tok])%list).
Proof.
  destruct (getRepeatCount_cases action params) as [H|(t & k & m & Hp & _ & _ & Hm & H)].
  - exists 1, params. split; [done|]. split; [done|by left].
  - exists m, t. split; [done|]. split; [done|]. right. by exists k.
Qed.

Lemma createJsonCommand_panic (action : string) (tokens : list string) (p : panic) :
  createJsonCommand action tokens = Panic p → action = "speed" ∧ tokens = [].
Proof.
  unfold createJsonCommand.
  destruct (CommandMap !! action) as [cmd|] eqn:Hcmd; [|done].
  apply CommandMap_lookup in Hcmd. unfold CommandEntries in Hcmd.
  repeat (apply elem_of_cons in Hcmd as [[= -> ->]|Hcmd]; [try discriminate|]);
    [| |by apply elem_of_nil in Hcmd].
  - cbn [CreateParameterMap mkCommand].
    destruct (seek_builder tokens) as [pm|e|q] eqn:Hseek; [done..|].
    by apply seek_builder_no_panic in Hseek.
  - cbn [CreateParameterMap mkCommand]. by destruct tokens.
Qed.

(** X4: [ExecuteCommand] faults in exactly one situation: the action
    [speed] without any token, where the builder reads [params[0]] of an
    empty slice; nothing has been posted at that point. *)
Theorem ExecuteCommand_faults_only_for_speed (config : Configuration) (action : string)
    (params : list string) (w : world) :
  ((∃ p, (ExecuteCommand config action params w).1 = Panic p) ↔
   action = "speed" ∧ params = []) ∧
  ExecuteCommand config "speed" [] w = (Panic (IndexOutOfRange 0 0), w).
Proof.
  split; [|reflexivity]. split.
  - intros [p Hp]. unfold ExecuteCommand in Hp.
    destruct (getRepeatCount_cases action params)
      as [Hc|(tokens & tok & n & -> & Hdir & _ & _ & Hc)]; rewrite Hc in Hp.
    + destruct (createJsonCommand action params) as [doc|e|q] eqn:Hdoc.
      * by apply send_loop_no_panic in Hp.
      * done.
      * by apply createJsonCommand_panic in Hdoc.
    + destruct (createJsonCommand action tokens) as [doc|e|q] eqn:Hdoc.
      * by apply send_loop_no_panic in Hp.
      * done.
      * apply createJsonCommand_panic in Hdoc as [-> _]. unfold directional in Hdir.
        refute_elem Hdir.
  - intros [-> ->]. by eexists.
Qed.

(** X5: for every action other than [seek] and [speed], known or not, the
    outcome of [createJsonCommand] does not depend on the tokens: the
    builders of these commands, [notify] included, drop them. *)
Theorem tokens_ignored (action : string) (tokens tokens' : list string) :
  action ∉ ["seek"; "speed"] →
  createJsonCommand action tokens = createJsonCommand action tokens'.
Proof.
  intros Hact. unfold createJsonCommand.
  destruct (CommandMap !! action) as [cmd|] eqn:Hcmd; [|done].
  apply CommandMap_lookup in Hcmd. unfold CommandEntries in Hcmd.
  repeat (apply elem_of_cons in Hcmd as [[= -> ->]|Hcmd]; [try reflexivity|]);
    [| |by apply elem_of_nil in Hcmd].
  - destruct Hact. apply list_elem_of_here.
  - destruct Hact. apply list_elem_of_further, list_elem_of_here.
Qed.

Lemma tokens_ignored_witness :
  createJsonCommand "notify" ["title:Hello,message:World"] = createJsonCommand "notify" [].
Proof.
  refine (tokens_ignored "notify" ["title:Hello,message:World"] [] _).
  intros H. refute_elem H.
Defined.

(** X6: the seek builder looks at the first and at the last token only:
    the tokens between them never change its outcome. *)
Theorem seek_first_and_last_token (p0 tok : string) (middle middle' : list string) :
  seek_builder (p0 :: middle ++ [tok]) = seek_builder (p0 :: middle' ++ [tok]).
Proof.
  destruct (decide (p0 ∈ symbolic_tokens)) as [Hin|Hout].
  - rewrite !seek_symbolic. unfold symbolic_tokens in Hin.
    repeat (apply elem_of_cons in Hin as [->|Hin]; [reflexivity|]).
    by apply elem_of_nil in Hin.
  - rewrite (seek_absolute_time (p0 :: middle ++ [tok]) p0 tok),
            (seek_absolute_time (p0 :: middle' ++ [tok]) p0 tok);
      try done; by rewrite app_comm_cons, last_snoc.
Qed.

(** X7: a response with a non-zero error code whose [data] carries no
    message, parameter name or type makes [sendRequest] return an error with
    the empty text: neither the code nor [error.message] is ever shown. *)
Theorem remote_error_without_data (host port : string) (js doc : json) (w : world)
    (rest : list reply) (resp : ErrorResponse) :
  url_error w (request_url host port) = None →
  script w = Answers (Document doc) :: rest →
  json_dec.Unmarshal doc zeroErrorResponse = (resp, None) →
  Error_Code (Resp_Error resp) ≠ 0 →
  Data_Message (Error_Data (Resp_Error resp)) = "" →
  Data_Stack (Error_Data (Resp_Error resp)) = zeroStack →
  (sendRequest host port js w).1 = Err (errors.New "").
Proof.
  intros Hurl Hscript Hdec Hcode Hmsg Hstack.
  rewrite (sendRequest_answer host port js doc w rest Hurl Hscript), Hdec.
  cbn [fst]. destruct (Error_Code (Resp_Error resp) =? 0) eqn:E; [by apply Z.eqb_eq in E|].
  rewrite createJsonError_composed. unfold composed_message, segment.
  by rewrite Hmsg, Hstack.
Qed.

Lemma remote_error_without_data_witness :
  (sendRequest "localhost" "8080" JNull
     {| url_error := λ _, None; script := [Answers (Document method_not_found_body)];
        posted := [] |}).1 = Err (errors.New "").
Proof.
  refine (remote_error_without_data "localhost" "8080" JNull method_not_found_body
            {| url_error := λ _, None; script := [Answers (Document method_not_found_body)];
               posted := [] |} []
            {| Resp_Error := {| Error_Code := -32601; Error_Data := zeroData;
                                Error_Message := "Method not found." |};
               Resp_ID := 1; Resp_JsonRPC := "2.0" |}
            eq_refl eq_refl eq_refl _ eq_refl eq_refl).
  discriminate.
Defined.

(** X21: [createJsonCommand] returns an error in two cases only: the
    action is not registered, or the action is [seek] and its builder rejects
    the tokens; no other command validates its tokens. *)
Theorem createJsonCommand_errors (action : string) (tokens : list string) (e : error) :
  createJsonCommand action tokens = Err e →
  ((action ∉ registered_names) ∧ e = unknown_command action) ∨
  (action = "seek" ∧ seek_builder tokens = Err e).
Proof.
  unfold createJsonCommand.
  destruct (CommandMap !! action) as [cmd|] eqn:Hcmd.
  - intros Herr. right. apply CommandMap_lookup in Hcmd. unfold CommandEntries in Hcmd.
    repeat (apply elem_of_cons in Hcmd as [[= -> ->]|Hcmd]; [try discriminate Herr|]);
      [| |by apply elem_of_nil in Hcmd].
    + cbn [CreateParameterMap mkCommand] in Herr.
      by destruct (seek_builder tokens) as [pm|e'|q]; [|injection Herr as ->|].
    + cbn [CreateParameterMap mkCommand] in Herr. by destruct tokens.
  - intros [= <-]. left. split; [|done].
    intros Hin. destruct (CommandMap_hit action Hin) as (cmd & Hc & _). congruence.
Qed.

Lemma createJsonCommand_errors_witness :
  (("seek" ∉ registered_names) ∧
   errors.New illegal_parameter = unknown_command "seek") ∨
  ("seek" = "seek" ∧ seek_builder ["12"] = Err (errors.New illegal_parameter)).
Proof.
  exact (createJsonCommand_errors "seek" ["12"] (errors.New illegal_parameter) eq_refl).
Defined.

(** * Properties of package administration *)

Section administration_properties.
Context {S : Type} `{FileSystem S}.

Lemma getFullConfigPath_disk (st : storage S) : disk (getFullConfigPath st).2 = disk st.
Proof.
  unfold getFullConfigPath. destruct (_ =? 0); [|done]. by destruct (homedir_Dir (disk st)).
Qed.

Lemma getFullConfigPath_fresh (st : storage S) (home : string) :
  fullPathCache st = "" → homedir_Dir (disk st) = Returned home →
  getFullConfigPath st =
    (Returned (home ++ "/" ++ filePath),
     {| fullPathCache := home ++ "/" ++ filePath; disk := disk st |}).
Proof. intros Hc Hd. unfold getFullConfigPath. by rewrite Hc, Hd. Qed.

Lemma getFullConfigPath_failed (st : storage S) (e : error) :
  fullPathCache st = "" → homedir_Dir (disk st) = Failed e →
  getFullConfigPath st = (Failed e, st).
Proof. intros Hc Hd. unfold getFullConfigPath. by rewrite Hc, Hd. Qed.

Lemma UnmarshalConfiguration_Marshal (c into : Configuration) :
  UnmarshalConfiguration (MarshalConfiguration c) into = (c, None).
Proof. by destruct c. Qed.

Lemma loadConfiguration_accepts_any_content_eq (st : storage S) (path : string)
    (content : body) :
  (getFullConfigPath st).1 = Returned path →
  ioutil_ReadFile (disk st) path = Returned content →
  (loadConfiguration st).1 =
    (match content with
     | NotJSON _ => zeroConfiguration
     | Document doc => (UnmarshalConfiguration doc zeroConfiguration).1
     end, None).
Proof.
  intros Hpath Hread. unfold loadConfiguration.
  pose proof (getFullConfigPath_disk st) as Hdisk.
  destruct (getFullConfigPath st) as [p st']. cbn in Hpath, Hdisk. subst p.
  rewrite Hdisk, Hread. destruct content as [e|doc]; [done|].
  by destruct (UnmarshalConfiguration doc zeroConfiguration) as [c [e|]].
Qed.

(** X8: whenever the configuration file can be read, [loadConfiguration]
    returns the nil error, whatever the file holds: bytes that are no JSON
    give the zero configuration, a document with wrongly typed fields gives
    whatever [json.Unmarshal] stored. *)
Theorem loadConfiguration_accepts_any_content (st : storage S) (path : string)
    (content : body) :
  (getFullConfigPath st).1 = Returned path →
  ioutil_ReadFile (disk st) path = Returned content →
  (loadConfiguration st).1 =
    (match content with
     | NotJSON _ => zeroConfiguration
     | Document doc => (UnmarshalConfiguration doc zeroConfiguration).1
     end, None).
Proof. apply loadConfiguration_accepts_any_content_eq. Qed.

Lemma WriteConfiguration_never_reports_nil (configuration : Configuration) (st : storage S) :
  (WriteConfiguration configuration st).1 = None.
Proof. unfold WriteConfiguration. by destruct (homedir_Dir (disk st)). Qed.

(** X9: [WriteConfiguration] returns the nil error in every case: when
    [homedir.Dir] fails nothing is written, and when [ioutil.WriteFile] fails
    its error is dropped. *)
Theorem WriteConfiguration_never_reports (configuration : Configuration) (st : storage S) :
  (WriteConfiguration configuration st).1 = None ∧
  (∀ e, homedir_Dir (disk st) = Failed e → WriteConfiguration configuration st = (None, st)) ∧
  (∀ home, homedir_Dir (disk st) = Returned home →
     (WriteConfiguration configuration st).2 =
       {| fullPathCache := fullPathCache st;
          disk := (ioutil_WriteFile (disk st) (home ++ "/" ++ filePath)
                     (MarshalConfiguration configuration) perm_0700).2 |}).
Proof.
  split; [apply WriteConfiguration_never_reports_nil|].
  unfold WriteConfiguration. split; [by intros e ->|by intros home ->].
Qed.

(** X10: on a first run (empty path cache, home directory resolved,
    configuration file unreadable) [CreateConfiguration] makes the directory,
    writes the zero configuration and returns it with the nil error. *)
Theorem CreateConfiguration_first_run (st : storage S) (home : string) (e : error) :
  fullPathCache st = "" →
  homedir_Dir (disk st) = Returned home →
  ioutil_ReadFile (disk st) (home ++ "/" ++ filePath) = Failed e →
  homedir_Dir (os_MkdirAll (disk st) (home ++ "/" ++ fileDirectory) ModeDir_0700)
    = Returned home →
  CreateConfiguration st =
    ((zeroConfiguration, None),
     {| fullPathCache := home ++ "/" ++ filePath;
        disk := (ioutil_WriteFile
                   (os_MkdirAll (disk st) (home ++ "/" ++ fileDirectory) ModeDir_0700)
                   (home ++ "/" ++ filePath) (MarshalConfiguration zeroConfiguration)
                   perm_0700).2 |}).
Proof.
  intros Hcache Hhome Hread Hstable. unfold CreateConfiguration, loadConfiguration.
  rewrite (getFullConfigPath_fresh st home Hcache Hhome).
  cbv beta iota zeta. cbn [disk fullPathCache].
  rewrite Hread. cbv beta iota zeta. cbn [disk fullPathCache]. rewrite Hhome.
  unfold WriteConfiguration. cbn [disk fullPathCache].
  by rewrite Hstable.
Qed.

(** X11: started with an empty path cache, [CreateConfiguration] returns
    an error exactly when [homedir.Dir] fails, and then that error; an
    unreadable or malformed file and a failing write are not reported. *)
Theorem CreateConfiguration_error (st : storage S) (e : error) :
  fullPathCache st = "" →
  (CreateConfiguration st).1.2 = Some e ↔ homedir_Dir (disk st) = Failed e.
Proof.
  intros Hcache. unfold CreateConfiguration, loadConfiguration.
  destruct (homedir_Dir (disk st)) as [home|e0] eqn:Hhome.
  - rewrite (getFullConfigPath_fresh st home Hcache Hhome).
    cbv beta iota zeta. cbn [disk fullPathCache].
    destruct (ioutil_ReadFile (disk st) (home ++ "/" ++ filePath)) as [[e1|doc]|e1].
    + done.
    + by destruct (UnmarshalConfiguration doc zeroConfiguration) as [c [e1|]].
    + cbv beta iota zeta. cbn [disk fullPathCache]. rewrite Hhome.
      unfold WriteConfiguration. cbn [disk fullPathCache].
      destruct (homedir_Dir (os_MkdirAll (disk st) _ _)); cbn; split; intros Hx; discriminate Hx.
  - rewrite (getFullConfigPath_failed st e0 Hcache Hhome).
    cbv beta iota zeta. rewrite Hhome. cbn. split; by intros [= ->].
Qed.

(** X12: once [getFullConfigPath] has returned a path, the path is not
    empty and every later call returns the same path without asking for the
    home directory again, whatever the disk has become. *)
Theorem getFullConfigPath_cached (st : storage S) (path : string) (d : S) :
  (getFullConfigPath st).1 = Returned path →
  path ≠ "" ∧
  getFullConfigPath {| fullPathCache := fullPathCache (getFullConfigPath st).2; disk := d |}
    = (Returned path, {| fullPathCache := path; disk := d |}).
Proof.
  unfold getFullConfigPath at 1 3.
  destruct (Z.of_nat (String.length (fullPathCache st)) =? 0) eqn:Hlen.
  - destruct (homedir_Dir (disk st)) as [home|e]; [|done].
    cbn [fst snd fullPathCache]. intros [= <-].
    assert ((Z.of_nat (String.length (home ++ "/" ++ filePath)) =? 0) = false) as Hne.
    { apply Z.eqb_neq. rewrite !length_append. cbn [String.length]. lia. }
    split; [intros Heq; by rewrite Heq in Hne|].
    unfold getFullConfigPath. cbn [fullPathCache]. by rewrite Hne.
  - cbn [fst snd]. intros [= <-].
    split; [intros Heq; by rewrite Heq in Hlen|].
    unfold getFullConfigPath. cbn [fullPathCache]. by rewrite Hlen.
Qed.

(** X13: a configuration of ASCII strings that [WriteConfiguration] got
    onto the disk is what [loadConfiguration] returns afterwards, when the
    file reads back as it was written and the home directory is unchanged. *)
Theorem configuration_round_trip (configuration : Configuration) (st : storage S)
    (home : string) (d : S) :
  is_ascii (Host configuration) = true → is_ascii (Port configuration) = true →
  fullPathCache st = "" →
  homedir_Dir (disk st) = Returned home →
  ioutil_WriteFile (disk st) (home ++ "/" ++ filePath)
    (MarshalConfiguration configuration) perm_0700 = (None, d) →
  homedir_Dir d = Returned home →
  ioutil_ReadFile d (home ++ "/" ++ filePath)
    = Returned (Document (MarshalConfiguration configuration)) →
  (loadConfiguration (WriteConfiguration configuration st).2).1 = (configuration, None).
Proof.
  intros _ _ Hcache Hhome Hwrite Hhome' Hread.
  unfold WriteConfiguration. rewrite Hhome, Hwrite. cbn [snd].
  unfold loadConfiguration.
  rewrite (getFullConfigPath_fresh _ home) by done.
  cbv beta iota zeta. cbn [disk fullPathCache].
  by rewrite Hread, UnmarshalConfiguration_Marshal.
Qed.

(** X22: a configuration file that can be read is never written over,
    even when its content is unusable: [CreateConfiguration] returns what
    [loadConfiguration] returned and leaves the disk as it was. *)
Theorem CreateConfiguration_keeps_readable_file (st : storage S) (path : string)
    (content : body) :
  (getFullConfigPath st).1 = Returned path →
  ioutil_ReadFile (disk st) path = Returned content →
  (CreateConfiguration st).1 = (loadConfiguration st).1 ∧
  disk (CreateConfiguration st).2 = disk st.
Proof.
  intros Hpath Hread.
  pose proof (loadConfiguration_accepts_any_content_eq st path content Hpath Hread) as Hload.
  unfold CreateConfiguration.
  assert (disk (loadConfiguration st).2 = disk st) as Hdisk.
  { unfold loadConfiguration. pose proof (getFullConfigPath_disk st) as Hd.
    destruct (getFullConfigPath st) as [[p|e] st']; cbn in Hd; [|done].
    destruct (ioutil_ReadFile (disk st') p) as [[e|doc]|e]; [done| |done].
    by destruct (UnmarshalConfiguration doc zeroConfiguration) as [c [e|]]. }
  destruct (loadConfiguration st) as [[c err] st']. cbn in Hload, Hdisk.
  injection Hload as _ ->. done.
Qed.

End administration_properties.

Lemma loadConfiguration_accepts_any_content_witness :
  (loadConfiguration (start (disk_with (NotJSON (externalError "unexpected end of JSON input"))))).1
    = (zeroConfiguration, None) ∧
  (loadConfiguration
     (start (disk_with (Document (JObject [("Host", JInt 5); ("Port", JString "8080")]))))).1
    = ({| Host := ""; Port := "8080" |}, None).
Proof.
  split.
  - exact (loadConfiguration_accepts_any_content
             (start (disk_with (NotJSON (externalError "unexpected end of JSON input"))))
             "/home/kodi/.config/kodiremote/kodiremote.conf"
             (NotJSON (externalError "unexpected end of JSON input")) eq_refl eq_refl).
  - exact (loadConfiguration_accepts_any_content
             (start (disk_with (Document (JObject [("Host", JInt 5); ("Port", JString "8080")]))))
             "/home/kodi/.config/kodiremote/kodiremote.conf"
             (Document (JObject [("Host", JInt 5); ("Port", JString "8080")]))
             eq_refl eq_refl).
Defined.

Lemma CreateConfiguration_first_run_witness :
  CreateConfiguration (start fresh_disk) =
    ((zeroConfiguration, None),
     {| fullPathCache := "/home/kodi/.config/kodiremote/kodiremote.conf";
        disk := {| toy_home := Returned "/home/kodi";
                   toy_dirs := ["/home/kodi/.config/kodiremote/"];
                   toy_files := [("/home/kodi/.config/kodiremote/kodiremote.conf",
                                  Document (JObject [("Host", JString "");
                                                     ("Port", JString "")]))] |} |}).
Proof.
  exact (CreateConfiguration_first_run (start fresh_disk) "/home/kodi"
           (externalError "no such file or directory") eq_refl eq_refl eq_refl eq_refl).
Defined.

Lemma CreateConfiguration_error_witness :
  (CreateConfiguration
     (start {| toy_home := Failed (externalError "$HOME is not defined");
               toy_dirs := []; toy_files := [] |})).1.2
  = Some (externalError "$HOME is not defined").
Proof.
  exact (proj2 (CreateConfiguration_error
                  (start {| toy_home := Failed (externalError "$HOME is not defined");
                            toy_dirs := []; toy_files := [] |})
                  (externalError "$HOME is not defined") eq_refl) eq_refl).
Defined.

Lemma getFullConfigPath_cached_witness :
  "/home/kodi/.config/kodiremote/kodiremote.conf" ≠ "" ∧
  getFullConfigPath
    {| fullPathCache := "/home/kodi/.config/kodiremote/kodiremote.conf";
       disk := {| toy_home := Failed (externalError "$HOME is not defined");
                  toy_dirs := []; toy_files := [] |} |}
  = (Returned "/home/kodi/.config/kodiremote/kodiremote.conf",
     {| fullPathCache := "/home/kodi/.config/kodiremote/kodiremote.conf";
        disk := {| toy_home := Failed (externalError "$HOME is not defined");
                   toy_dirs := []; toy_files := [] |} |}).
Proof.
  exact (getFullConfigPath_cached (start fresh_disk)
           "/home/kodi/.config/kodiremote/kodiremote.conf"
           {| toy_home := Failed (externalError "$HOME is not defined");
              toy_dirs := []; toy_files := [] |} eq_refl).
Defined.

Lemma configuration_round_trip_witness :
  (loadConfiguration
     (WriteConfiguration {| Host := "192.168.0.2"; Port := "8080" |}
        (start (disk_with (NotJSON (externalError "unexpected end of JSON input"))))).2).1
  = ({| Host := "192.168.0.2"; Port := "8080" |}, None).
Proof.
  exact (configuration_round_trip {| Host := "192.168.0.2"; Port := "8080" |}
           (start (disk_with (NotJSON (externalError "unexpected end of JSON input"))))
           "/home/kodi"
           {| toy_home := Returned "/home/kodi";
              toy_dirs := ["/home/kodi/.config/kodiremote/"];
              toy_files :=
                [("/home/kodi/.config/kodiremote/kodiremote.conf",
                  Document (MarshalConfiguration {| Host := "192.168.0.2"; Port := "8080" |}));
                 ("/home/kodi/.config/kodiremote/kodiremote.conf",
                  NotJSON (externalError "unexpected end of JSON input"))] |}
           eq_refl eq_refl eq_refl eq_refl eq_refl eq_refl eq_refl).
Defined.

Lemma CreateConfiguration_keeps_readable_file_witness :
  (CreateConfiguration (start (disk_with (NotJSON (externalError "invalid character"))))).1
    = (loadConfiguration (start (disk_with (NotJSON (externalError "invalid character"))))).1 ∧
  disk (CreateConfiguration (start (disk_with (NotJSON (externalError "invalid character"))))).2
    = disk_with (NotJSON (externalError "invalid character")).
Proof.
  exact (CreateConfiguration_keeps_readable_file
           (start (disk_with (NotJSON (externalError "invalid character"))))
           "/home/kodi/.config/kodiremote/kodiremote.conf"
           (NotJSON (externalError "invalid character")) eq_refl eq_refl).
Defined.

(** * Properties of package main *)

Lemma Split_head_before_equals (s : string) :
  head (strings.Split s "=") = Some (before_equals s).
Proof.
  induction s as [|c s IH]; [done|]. cbn [strings.Split before_equals].
  destruct (Ascii.eqb c "="); [done|].
  destruct (strings.Split s "=") as [|piece pieces]; [done|].
  cbn in *. by injection IH as ->.
Qed.

Lemma Split_unsplit (p s : string) (sep : ascii) :
  strings.has_byte p sep = false →
  strings.Split (p ++ String sep s) sep = p :: strings.Split s sep.
Proof.
  induction p as [|c p IH]; intros Hp.
  - change ("" ++ String sep s) with (String sep s). cbn [strings.Split].
    by rewrite Ascii.eqb_refl.
  - cbn [strings.has_byte] in Hp. apply orb_false_elim in Hp as [Hc Hp].
    change (String c p ++ String sep s) with (String c (p ++ String sep s)).
    cbn [strings.Split]. rewrite Hc. by rewrite IH.
Qed.

Lemma Split_pieces_count (s : string) (sep : ascii) :
  (2 ≤ length (strings.Split s sep))%nat ↔ strings.has_byte s sep = true.
Proof.
  induction s as [|c s IH]; cbn [strings.Split strings.has_byte].
  - cbn. split; [lia|done].
  - pose proof (Split_nonempty s sep) as Hne.
    destruct (Ascii.eqb c sep); cbn [orb].
    + destruct (strings.Split s sep); [done|]. cbn. split; [done|lia].
    + destruct (strings.Split s sep) as [|piece pieces]; [done|]. exact IH.
Qed.

Lemma prefix_inv (p s : string) : String.prefix p s = true → ∃ v, s = p ++ v.
Proof.
  revert s. induction p as [|c p IH]; intros s Hp; [by exists s|].
  destruct s as [|d s]; [done|]. cbn in Hp.
  destruct (ascii_dec c d) as [->|]; [|done].
  destruct (IH s Hp) as [v ->]. by exists v.
Qed.

Lemma config_value (name arg : string) :
  strings.has_byte name "=" = false →
  String.prefix (name ++ "=") arg = true →
  ∃ v, arg = name ++ "=" ++ v ∧
       index (strings.Split arg "=") 1 = Ok (before_equals v).
Proof.
  intros Hname (v & ->)%prefix_inv. exists v.
  assert ((name ++ "=") ++ v = name ++ String "=" v) as ->.
  { by rewrite append_assoc. }
  split; [done|]. rewrite Split_unsplit by done.
  pose proof (Split_head_before_equals v) as Hhead.
  destruct (strings.Split v "=") as [|piece pieces]; [done|].
  injection Hhead as ->. by apply (index_lookup _ 1).
Qed.

Lemma config_loop_app (c : Configuration) (ch : bool) (a b : list string) :
  checkAndHandleArgumentsConfig_loop c ch (a ++ b) =
    r ← checkAndHandleArgumentsConfig_loop c ch a;
    checkAndHandleArgumentsConfig_loop r.1 r.2 b.
Proof.
  revert c ch. induction a as [|arg a IH]; intros c ch; [done|].
  cbn [app checkAndHandleArgumentsConfig_loop].
  destruct (String.prefix "--host=" arg).
  - destruct (index (strings.Split arg "=") 1); [apply IH|done..].
  - destruct (String.prefix "--port=" arg); [|apply IH].
    destruct (index (strings.Split arg "=") 1); [apply IH|done..].
Qed.

Lemma config_loop_total (c : Configuration) (ch : bool) (args : list string) :
  ∃ c', checkAndHandleArgumentsConfig_loop c ch args
          = Ok (c', ch || existsb is_config_arg args) ∧
        (existsb is_config_arg args = false → c' = c) ∧
        (existsb (String.prefix "--host=") args = false → Host c' = Host c).
Proof.
  revert c ch. induction args as [|arg args IH]; intros c ch.
  - exists c. cbn [checkAndHandleArgumentsConfig_loop existsb]. by rewrite orb_false_r.
  - cbn [checkAndHandleArgumentsConfig_loop existsb].
    assert (is_config_arg arg = String.prefix "--host=" arg || String.prefix "--port=" arg)
      as Harg by done.
    rewrite !Harg. clear Harg.
    destruct (String.prefix "--host=" arg) eqn:Hh.
    + destruct (config_value "--host" arg eq_refl Hh) as (v & _ & ->).
      cbn [mbind result_bind orb].
      destruct (IH {| Host := before_equals v; Port := Port c |} true) as (c' & -> & _).
      exists c'. cbn [orb]. by rewrite orb_true_r.
    + destruct (String.prefix "--port=" arg) eqn:Hp.
      * destruct (config_value "--port" arg eq_refl Hp) as (v & _ & ->).
        cbn [mbind result_bind orb].
        destruct (IH {| Host := Host c; Port := before_equals v |} true) as (c' & -> & _ & Hhost).
        exists c'. cbn [orb]. rewrite orb_true_r. split; [done|]. split; [done|].
        intros Hno. by rewrite Hhost.
      * cbn [orb]. apply IH.
Qed.

Lemma append_cancel (p a b : string) : p ++ a = p ++ b → a = b.
Proof.
  induction p as [|c p IH]; [done|].
  change (String c p ++ a) with (String c (p ++ a)).
  change (String c p ++ b) with (String c (p ++ b)). intros [= Heq]. by apply IH.
Qed.

Lemma before_equals_whole (v : string) :
  strings.has_byte v "=" = false → before_equals v = v.
Proof.
  induction v as [|c v IH]; [done|]. cbn [strings.has_byte before_equals].
  intros [Hc Hv]%orb_false_elim. rewrite Hc. by rewrite IH.
Qed.

(** X14: [checkAndHandleArgumentsConfig] never faults; it returns true
    exactly when some argument starts with [--host=] or [--port=], and
    leaves the configuration as it was otherwise. *)
Theorem config_arguments_handled (configuration : Configuration) (args : list string) :
  ∃ configuration',
    checkAndHandleArgumentsConfig configuration args
      = Ok (configuration', existsb is_config_arg args) ∧
    (existsb is_config_arg args = false → configuration' = configuration).
Proof.
  destruct (config_loop_total configuration false args) as (c' & Hc & Hsame & _).
  exists c'. by split.
Qed.

(** X15: of several [--host=] arguments the last one counts, and its
    value is the text up to the next [=]: a value without [=] is taken
    whole, [--host=a=b] sets the host to [a]. *)
Theorem host_argument_value (configuration : Configuration) (before after : list string)
    (v : string) :
  existsb (String.prefix "--host=") after = false →
  ∃ configuration',
    checkAndHandleArgumentsConfig configuration (before ++ ("--host=" ++ v) :: after)
      = Ok (configuration', true) ∧
    Host configuration' = before_equals v ∧
    (strings.has_byte v "=" = false → Host configuration' = v).
Proof.
  intros Hafter. unfold checkAndHandleArgumentsConfig. rewrite config_loop_app.
  destruct (config_loop_total configuration false before) as (c1 & -> & _).
  cbn [mbind result_bind fst snd checkAndHandleArgumentsConfig_loop].
  pose proof (prefix_app "--host=" v) as Hp. rewrite Hp.
  destruct (config_value "--host" ("--host=" ++ v) eq_refl Hp) as (v' & Hv & ->).
  change ("--host" ++ "=" ++ v') with ("--host=" ++ v') in Hv.
  apply append_cancel in Hv as <-. cbn [mbind result_bind].
  destruct (config_loop_total {| Host := before_equals v; Port := Port c1 |} true after)
    as (c' & -> & _ & Hhost).
  exists c'. split; [done|]. specialize (Hhost Hafter). cbn in Hhost.
  split; [done|]. intros Hv. by rewrite Hhost, before_equals_whole.
Qed.

Lemma host_argument_value_witness :
  ∃ configuration',
    checkAndHandleArgumentsConfig zeroConfiguration
      (["--host=old"] ++ ("--host=" ++ "kodi=tv") :: ["--port=8080"])
      = Ok (configuration', true) ∧
    Host configuration' = before_equals "kodi=tv" ∧
    (strings.has_byte "kodi=tv" "=" = false → Host configuration' = "kodi=tv").
Proof.
  exact (host_argument_value zeroConfiguration ["--host=old"] ["--port=8080"] "kodi=tv" eq_refl).
Defined.

Lemma splitParameterIntoMap_loop_spec (params : gmap string value) (pieces : list string) :
  if existsb (λ piece, negb (strings.has_byte piece ":")) pieces
  then splitParameterIntoMap_loop params pieces = Panic (IndexOutOfRange 1 1)
  else ∃ m, splitParameterIntoMap_loop params pieces = Ok m.
Proof.
  revert params. induction pieces as [|piece pieces IH]; intros params; [by exists params|].
  cbn [existsb splitParameterIntoMap_loop].
  pose proof (Split_pieces_count piece ":") as Hcount.
  pose proof (Split_nonempty piece ":") as Hne.
  destruct (strings.Split piece ":") as [|k [|v rest]] eqn:Hsplit; [done| |].
  - destruct (strings.has_byte piece ":"); [cbn in Hcount; destruct Hcount as [_ Hc]; specialize (Hc eq_refl); lia|].
    reflexivity.
  - destruct (strings.has_byte piece ":"); [|cbn in Hcount; destruct Hcount as [Hc _]; discriminate Hc; lia].
    cbn [negb orb].
    assert (index (k :: v :: rest) 0 = Ok k) as -> by exact (index_lookup (k :: v :: rest) 0%nat k eq_refl).
    assert (index (k :: v :: rest) 1 = Ok v) as -> by exact (index_lookup (k :: v :: rest) 1%nat v eq_refl).
    cbn [mbind result_bind]. apply IH.
Qed.

(** X16: [splitParameterIntoMap] faults exactly when [args[1]] exists and
    one of its comma-separated pieces has no [:], reading [pair[1]] of a
    one-element slice; in every other case it returns a map. *)
Theorem splitParameterIntoMap_faults (args : list string) :
  match args !! 1%nat with
  | Some a1 =>
      if existsb (λ piece, negb (strings.has_byte piece ":")) (strings.Split a1 ",")
      then splitParameterIntoMap args = Panic (IndexOutOfRange 1 1)
      else ∃ m, splitParameterIntoMap args = Ok m
  | None => splitParameterIntoMap args = Ok ∅
  end.
Proof.
  unfold splitParameterIntoMap. destruct (args !! 1%nat) as [a1|] eqn:Ha.
  - pose proof (lookup_lt_Some _ _ _ Ha) as Hlt.
    assert ((1 <? len args) = true) as -> by (apply Z.ltb_lt; unfold len; lia).
    assert (index args 1 = Ok a1) as -> by exact (index_lookup args 1%nat a1 Ha).
    cbn [mbind result_bind].
    apply splitParameterIntoMap_loop_spec.
  - apply lookup_ge_None in Ha.
    assert ((1 <? len args) = false) as -> by (apply Z.ltb_ge; unfold len; lia).
    done.
Qed.

Lemma no_help_loop (args rest : list string) (idx : Z) (out : list event) :
  "help" ∉ rest → checkAndPrintHelp_loop args idx rest out = (Ok false, out).
Proof.
  revert idx. induction rest as [|arg rest IH]; intros idx Hno; [done|].
  cbn [checkAndPrintHelp_loop]. apply not_elem_of_cons in Hno as [Hne Hno].
  destruct (String.eqb_spec arg "help") as [->|_]; [done|]. by apply IH.
Qed.

(** X17: asking for help on a name that is not registered faults on the
    nil pointer inside [GetCommandForName] before anything is printed; the
    branch that would print that the command is not supported is never
    reached. *)
Theorem help_for_unknown_command_faults (before after : list string) (name : string)
    (out : list event) :
  "help" ∉ before → name ∉ registered_names →
  checkAndPrintHelp (before ++ "help" :: name :: after) out = (Panic NilDereference, out).
Proof.
  intros Hno Hname. unfold checkAndPrintHelp.
  set (args := (before ++ "help" :: name :: after)%list).
  assert (∀ done rest, args = (done ++ rest ++ "help" :: name :: after)%list →
            "help" ∉ rest →
            checkAndPrintHelp_loop args (len done) (rest ++ "help" :: name :: after) out
              = (Panic NilDereference, out)) as Hloop.
  { intros done rest. revert done. induction rest as [|arg rest IH]; intros done Hargs Hrest.
    - cbn [app checkAndPrintHelp_loop String.eqb Ascii.eqb Bool.eqb].
      assert ((len done <? len args - 1) = true) as ->.
      { apply Z.ltb_lt. rewrite Hargs. unfold len. rewrite !length_app. cbn. lia. }
      assert (index args (len done + 1) = Ok name) as ->.
      { replace (len done + 1) with (Z.of_nat (S (length done))) by (unfold len; lia).
        apply index_lookup. rewrite Hargs. cbn [app].
        rewrite lookup_app_r by lia.
        by replace (S (length done) - length done)%nat with 1%nat by lia. }
      cbn [mbind result_bind]. unfold GetCommandForName.
      by rewrite (CommandMap_miss name Hname).
    - apply not_elem_of_cons in Hrest as [Hne Hrest].
      cbn [app checkAndPrintHelp_loop].
      destruct (String.eqb_spec arg "help") as [->|_]; [done|].
      replace (len done + 1) with (len (done ++ [arg])) by (unfold len; rewrite length_app; cbn; lia).
      apply IH; [|done]. by rewrite Hargs, <- app_assoc. }
  apply (Hloop [] before); done.
Qed.

Lemma help_for_unknown_command_faults_witness :
  checkAndPrintHelp (["krm"] ++ "help" :: "volume" :: []) [] = (Panic NilDereference, []).
Proof.
  refine (help_for_unknown_command_faults ["krm"] [] "volume" [] _ _).
  - intros H. refute_elem H.
  - apply (bool_decide_unpack _). vm_compute. exact I.
Defined.

Section main_properties.
Context {S : Type} `{FileSystem S}.

Lemma main_after_help_check (prog : string) (args : list string) (p : process S) :
  "help" ∉ prog :: args → args ≠ [] →
  main (prog :: args) p =
    let '((config, err), st) := CreateConfiguration (store p) in
    match err with
    | None =>
        match checkAndHandleArgumentsConfig config args with
        | Ok (config, true) =>
            let '(err, st) := WriteConfiguration config st in
            (Ok (), {| store := st; net := net p;
                       stdout := stdout p +++ match err with
                                              | Some e => [PrintlnError e]
                                              | None => []
                                              end |})
        | Ok (config, false) =>
            match index args 0 with
            | Ok action =>
                let '(err, w) := ExecuteCommand config action (drop 1 args) (net p) in
                match err with
                | Ok _ => (Ok (), {| store := st; net := w; stdout := stdout p |})
                | Err e => (Ok (), {| store := st; net := w;
                                      stdout := stdout p +++ [PrintlnError e] |})
                | Panic q => (Panic q, {| store := st; net := w; stdout := stdout p |})
                end
            | Err e => (Err e, {| store := st; net := net p; stdout := stdout p |})
            | Panic q => (Panic q, {| store := st; net := net p; stdout := stdout p |})
            end
        | Err e => (Err e, {| store := st; net := net p; stdout := stdout p |})
        | Panic q => (Panic q, {| store := st; net := net p; stdout := stdout p |})
        end
    | Some e =>
        (Ok (), {| store := st; net := net p; stdout := stdout p +++ [PrintlnError e] |})
    end.
Proof.
  intros Hno Hargs. unfold main.
  assert ((len (prog :: args) <? 2) = false) as ->.
  { apply Z.ltb_ge. destruct args; [done|]. unfold len. cbn [length]. lia. }
  unfold checkAndPrintHelp. rewrite no_help_loop by done. reflexivity.
Qed.

(** X18: a run [prog action params...] without [help] and without
    [--host=]/[--port=] arguments, whose configuration loads, sends the
    command with that configuration whether or not a host is configured: the
    state of the network afterwards is the one [ExecuteCommand] leaves, an
    error it returns is printed, and the no-host message is never printed. *)
Theorem main_dispatches (prog action : string) (params : list string) (p : process S)
    (config : Configuration) (st : storage S) :
  "help" ∉ prog :: action :: params →
  existsb is_config_arg (action :: params) = false →
  CreateConfiguration (store p) = ((config, None), st) →
  main (prog :: action :: params) p =
    (match (ExecuteCommand config action params (net p)).1 with
     | Panic q => Panic q
     | _ => Ok ()
     end,
     {| store := st;
        net := (ExecuteCommand config action params (net p)).2;
        stdout := stdout p +++ match (ExecuteCommand config action params (net p)).1 with
                               | Err e => [PrintlnError e]
                               | _ => []
                               end |}).
Proof.
  intros Hno Hargs Hconf. rewrite main_after_help_check by done. rewrite Hconf.
  destruct (config_loop_total config false (action :: params)) as (c' & Hc & Hsame & _).
  unfold checkAndHandleArgumentsConfig. cbn [orb] in Hc.
  rewrite Hc, Hargs, (Hsame Hargs).
  assert (index (action :: params) 0 = Ok action) as ->
    by exact (index_lookup (action :: params) 0%nat action eq_refl).
  change (drop 1 (action :: params)) with params.
  destruct (ExecuteCommand config action params (net p)) as [[u|e|q] w];
    cbn [fst snd]; by rewrite ?app_nil_r.
Qed.


End main_properties.

Lemma main_dispatches_witness :
  main ["krm"; "play"] first_run =
    (Ok (),
     {| store := (CreateConfiguration (start fresh_disk)).2;
        net := {| url_error := λ _, None; script := [];
                  posted := [json_post "" ""
                               (JObject [("jsonrpc", JString "2.0");
                                         ("method", JString "Player.PlayPause");
                                         ("params", JObject [("playerid", JInt 1)]);
                                         ("id", JInt 1)])] |};
        stdout := [] |}).
Proof.
  refine (eq_trans (main_dispatches "krm" "play" [] first_run zeroConfiguration
                      (CreateConfiguration (start fresh_disk)).2 _ eq_refl eq_refl) _).
  - intros Hin. refute_elem Hin.
  - reflexivity.
Defined.


Lemma help_loop_handled (args rest : list string) (idx : Z) (out : list event) :
  "help" ∈ rest → (checkAndPrintHelp_loop args idx rest out).1 ≠ Ok false.
Proof.
  revert idx. induction rest as [|arg rest IH]; intros idx Hin; [by apply elem_of_nil in Hin|].
  cbn [checkAndPrintHelp_loop].
  destruct (String.eqb_spec arg "help") as [->|Hne].
  - destruct (idx <? len args - 1).
    + destruct (index args (idx + 1) ≫= GetCommandForName) as [[c [|]]|e|q]; try done.
      by destruct (0 <? Z.of_nat (size (ParametersDescription c))).
    + by destruct (printHelp args out) as [[u|e|q] out'].
  - apply IH. apply elem_of_cons in Hin as [Heq|Hin]; [by subst|done].
Qed.

Section main_offline.
Context {S : Type} `{FileSystem S}.

(** X23: a run whose arguments contain [help] anywhere, also after a
    command, touches neither the disk nor the network: no configuration is
    created and nothing is sent. *)
Theorem main_help_is_offline (Args : list string) (p : process S) :
  "help" ∈ Args →
  store (main Args p).2 = store p ∧ net (main Args p).2 = net p.
Proof.
  intros Hin. unfold main. destruct (len Args <? 2).
  - by destruct (printUsage Args (stdout p)).
  - unfold checkAndPrintHelp.
    pose proof (help_loop_handled Args Args 0 (stdout p) Hin) as Hh.
    by destruct (checkAndPrintHelp_loop Args 0 Args (stdout p)) as [[[|]|e|q] out].
Qed.

End main_offline.

Lemma main_help_is_offline_witness :
  store (main ["krm"; "play"; "help"] first_run).2 = store first_run ∧
  net (main ["krm"; "play"; "help"] first_run).2 = net first_run.
Proof.
  refine (main_help_is_offline ["krm"; "play"; "help"] first_run _).
  do 2 apply list_elem_of_further. apply list_elem_of_here.
Defined.

(** * Properties of the earlier revision *)

(** X20: in the earlier revision, for a registered action and an address
    [http.NewRequest] accepts, [ExecuteCommand] posts one request and returns
    the nil error whatever happens to it: a failing [client.Do], an
    unreadable body and a remote error are all unreported. *)
Theorem legacy_ExecuteCommand_reports_nothing (config : Configuration) (action : string)
    (params : gmap string string) (w : world) (cmd : legacy.Command) :
  legacy.CommandMap !! action = Some cmd →
  url_error w (request_url (Host config) (Port config)) = None →
  legacy.ExecuteCommand config action params w =
    (Ok (),
     after_reply w
       (json_post (Host config) (Port config)
          (legacy.MarshalCommandRequest
             (legacy.SetValues legacy.zeroCommandRequest (legacy.KodiName cmd) params)))).
Proof.
  intros Hcmd Hurl. unfold legacy.ExecuteCommand, legacy.createJsonCommand. rewrite Hcmd.
  unfold legacy.sendRequest. fold (request_url (Host config) (Port config)). rewrite Hurl.
  match goal with |- context [client_Do w ?r] => change r with
    (json_post (Host config) (Port config)
       (legacy.MarshalCommandRequest
          (legacy.SetValues legacy.zeroCommandRequest (legacy.KodiName cmd) params))) end.
  unfold client_Do, after_reply.
  by destruct (script w) as [|[e|e|b] rest].
Qed.

Lemma legacy_ExecuteCommand_reports_nothing_witness :
  legacy.ExecuteCommand localhost "play" ∅
    {| url_error := λ _, None; script := [DoFails (externalError "connection refused")];
       posted := [] |}
  = (Ok (),
     {| url_error := λ _, None; script := [];
        posted := [json_post "localhost" "8080"
                     (JObject [("jsonrpc", JString "2.0");
                               ("method", JString "Input.PlayPause");
                               ("ID", JInt 1)])] |}).
Proof.
  exact (legacy_ExecuteCommand_reports_nothing localhost "play" ∅
           {| url_error := λ _, None; script := [DoFails (externalError "connection refused")];
              posted := [] |}
           (legacy.mkCommand "play" "Input.PlayPause"
              "Resumes the current playback from pause state." ∅)
           eq_refl eq_refl).
Defined.
